(** * labeler_web.py: the segment labeler's staging, listing and commit

    A shallow embedding of [labeler_web.py]: the Flask handlers
    [api_segments], [api_pending] and [api_commit], the loader
    [load_segments_from_db], the process-wide dictionary [pending_labels],
    the table [segment_images] behind the Supabase client and the
    workbook written to [XLSX_PATH].

    Python values are the values a JSON document decodes to (a string
    is a sequence of characters with code points below 256, one [ascii]
    each; an integer has at most 4300 digits, since [json.loads] refuses
    longer ones); the handlers
    are state transformers over a [world]; what the environment decides
    (a store call or the file write raising) is read from a [faults]
    record given to each request. *)

From Stdlib Require Import ZArith Lia Ascii String SpecFloat DecimalString.
From stdpp Require Import gmap strings list fin_maps.

Open Scope string_scope.
Open Scope list_scope.
Open Scope Z_scope.

(** ** Python values and the builtins the handlers call *)

Module Py.

(** The exceptions that can arise in the handlers.  [StoreError] stands for
    whatever the Supabase client raises, [OSError] for a failed file
    write, [IllegalCharacterError] is openpyxl's. *)
Inductive exn :=
| TypeError
| ValueError
| OverflowError
| AttributeError
| StoreError
| OSError
| IllegalCharacterError.

(** What [json.loads] produces, which is also what the Supabase client
    hands back for a row: [None], [bool], [int], [float], [str], [list]
    and [dict] with string keys.  A float is an IEEE 754 datum. *)
#[warnings="-register-all"]
Inductive pyval :=
| PNone
| PBool (b : bool)
| PInt (z : Z)
| PFloat (f : spec_float)
| PStr (s : string)
| PList (l : list pyval)
| PDict (d : gmap string pyval).

(** Truth value testing, as used by [x or y]. *)
Definition truthy (v : pyval) : bool :=
  match v with
  | PNone => false
  | PBool b => b
  | PInt z => negb (z =? 0)
  | PFloat (S754_zero _) => false
  | PFloat _ => true
  | PStr s => negb (String.eqb s "")
  | PList l => match l with [] => false | _ => true end
  | PDict d => negb (Nat.eqb (size d) 0)
  end.

(** [a or b] *)
Definition py_or (a b : pyval) : pyval := if truthy a then a else b.

(** [d.get(k)] and [d.get(k, dflt)] on a dictionary. *)
Definition dict_get (d : gmap string pyval) (k : string) : pyval :=
  default PNone (d !! k).

Definition dict_get_default (d : gmap string pyval) (k : string) (dflt : pyval) : pyval :=
  default dflt (d !! k).

(** *** [int(x)] *)

(** [int] of a float truncates toward zero; infinities and NaN raise. *)
Definition int_of_float (f : spec_float) : exn + Z :=
  match f with
  | S754_zero _ => inr 0
  | S754_infinity _ => inl OverflowError
  | S754_nan => inl ValueError
  | S754_finite s m e =>
      let a := Z.shiftl (Z.pos m) e in
      inr (if s then - a else a)
  end.

(** The characters [int] skips around a literal ([Py_ISSPACE]): tab to
    carriage return, and the space. *)
Definition is_space (c : ascii) : bool :=
  let n := Z.of_nat (nat_of_ascii c) in
  ((9 <=? n) && (n <=? 13)) || (n =? 32).

(** Before it parses, [int] rewrites the characters from 127 on: a space
    (U+0085, U+00A0) becomes [" "], anything else, not being a decimal
    digit, becomes ["?"].  Characters below 127 stay. *)
Definition to_ascii (c : ascii) : ascii :=
  let n := Z.of_nat (nat_of_ascii c) in
  if n <? 127 then c
  else if (n =? 133) || (n =? 160) then " "%char
  else "?"%char.

Fixpoint transform (s : string) : string :=
  match s with
  | String c rest => String (to_ascii c) (transform rest)
  | EmptyString => EmptyString
  end.

Definition digit_of (c : ascii) : option Z :=
  let n := Z.of_nat (nat_of_ascii c) in
  if (48 <=? n) && (n <=? 57) then Some (n - 48) else None.

Fixpoint lstrip (s : string) : string :=
  match s with
  | String c rest => if is_space c then lstrip rest else s
  | EmptyString => EmptyString
  end.

Definition strip (s : string) : string :=
  String.rev (lstrip (String.rev (lstrip s))).

(** Decimal digits, single underscores allowed between two digits.
    [prev] tells whether the previous character was a digit. *)
Fixpoint digits (acc : Z) (prev : bool) (s : string) : option Z :=
  match s with
  | EmptyString => if prev then Some acc else None
  | String c rest =>
      match digit_of c with
      | Some d => digits (10 * acc + d) true rest
      | None =>
          if Ascii.eqb c "_" && prev then digits acc false rest else None
      end
  end.

(** The number of digits of a literal. *)
Fixpoint digit_count (s : string) : Z :=
  match s with
  | EmptyString => 0
  | String c rest =>
      match digit_of c with
      | Some _ => 1 + digit_count rest
      | None => digit_count rest
      end
  end.

(** The interpreter's default limit on the digits of a decimal literal
    ([sys.int_max_str_digits]). *)
Definition max_str_digits : Z := 4300.

(** [int(s)], base ten: surrounding white space, an optional sign,
    digits, at most [max_str_digits] of them.  [None] is [ValueError]. *)
Definition int_of_str (s : string) : option Z :=
  let body := strip (transform s) in
  if max_str_digits <? digit_count body then None
  else
    match body with
    | String "-" rest => Z.opp <$> digits 0 false rest
    | String "+" rest => digits 0 false rest
    | _ => digits 0 false body
    end.

Definition py_int (v : pyval) : exn + Z :=
  match v with
  | PNone => inl TypeError
  | PBool b => inr (if b then 1 else 0)
  | PInt z => inr z
  | PFloat f => int_of_float f
  | PStr s => match int_of_str s with Some z => inr z | None => inl ValueError end
  | PList _ | PDict _ => inl TypeError
  end.

(** *** Dictionary membership of a value in a dictionary with [int] keys *)

(** The [int] a value compares (and hashes) equal to, if any:
    [True == 1], [2.0 == 2].  Lists and dictionaries are unhashable:
    looking one up raises [TypeError]. *)
Definition int_key (v : pyval) : exn + option Z :=
  match v with
  | PNone | PStr _ => inr None
  | PBool b => inr (Some (if b then 1 else 0))
  | PInt z => inr (Some z)
  | PFloat (S754_zero _) => inr (Some 0)
  | PFloat (S754_finite s m e) =>
      let a := Z.shiftl (Z.pos m) e in
      if Z.shiftl a (- e) =? Z.pos m then inr (Some (if s then - a else a))
      else inr None
  | PFloat _ => inr None
  | PList _ | PDict _ => inl TypeError
  end.

(** [d[v] if v in d else None], or the [TypeError] of an unhashable [v]. *)
Definition lookup_val {A} (v : pyval) (d : gmap Z A) : exn + option A :=
  match int_key v with
  | inl e => inl e
  | inr None => inr None
  | inr (Some k) => inr (d !! k)
  end.

(** *** Propagation of exceptions *)

#[export] Instance exn_ret : MRet (sum exn) := λ A x, inr x.

#[export] Instance exn_bind : MBind (sum exn) := λ A B k x,
  match x with
  | inl e => inl e
  | inr a => k a
  end.

(** *** [str(x)] *)

Section Str.
(** [repr] of floats, lists and dictionaries is CPython's; the model
    takes it as given. *)
Variable py_repr : pyval → string.

Definition py_str (v : pyval) : string :=
  match v with
  | PStr s => s
  | PNone => "None"
  | PBool true => "True"
  | PBool false => "False"
  | PInt z => NilZero.string_of_int (Z.to_int z)
  | PFloat _ | PList _ | PDict _ => py_repr v
  end.
End Str.

End Py.

Import Py.

(** ** The Remote Segment Store: table [segment_images] behind Supabase *)

Module Store.

(** A row of [segment_images]: a numeric [id] and three nullable text
    columns. *)
Record db_row := {
  col_id : Z;
  col_segment_name : option string;
  col_url : option string;
  col_label : option string;
}.

(** A text cell as the client decodes it: SQL NULL is [None]. *)
Definition cell (o : option string) : pyval := from_option PStr PNone o.

(** The dictionary the client returns for a row under [select("*")]. *)
Definition to_dict (r : db_row) : gmap string pyval :=
  <["id" := PInt (col_id r)]>
    (<["segment_name" := cell (col_segment_name r)]>
       (<["url" := cell (col_url r)]>
          (<["label" := cell (col_label r)]> ∅))).

(** [.select("*").or_("label.is.null")]: the rows whose label IS NULL,
    in table order.  The result stands for [response.data or []], which
    is the list itself. *)
Definition select_null_label (t : list db_row) : list (gmap string pyval) :=
  to_dict <$> filter (λ r, col_label r = None) t.

(** [.eq("id", segment_id)]: the rows the filter selects.  The handlers
    only ever send an [int] read from the table. *)
Definition id_is (segment_id : pyval) (r : db_row) : bool :=
  match segment_id with
  | PInt z => z =? col_id r
  | _ => false
  end.

Definition set_label (label : string) (r : db_row) : db_row :=
  {| col_id := col_id r; col_segment_name := col_segment_name r;
     col_url := col_url r; col_label := Some label |}.

(** [.update({"label": label}).eq("id", segment_id)] *)
Definition update_label (segment_id : pyval) (label : string) (t : list db_row)
  : list db_row :=
  (λ r, if id_is segment_id r then set_label label r else r) <$> t.

(** The calls the store receives. *)
Inductive request :=
| Select
| Update (segment_id : pyval) (label : string).

End Store.

Import Store.

(** ** The workbook of openpyxl *)

Module Xlsx.

Record worksheet := {
  title : string;
  cells : gmap (nat * nat) pyval;
  column_widths : gmap string Z;
}.

(** A workbook is its list of sheets; the active sheet is the first. *)
Definition workbook := list worksheet.

(** [Workbook()]: one empty sheet. *)
Definition Workbook : workbook :=
  [ {| title := "Sheet"; cells := ∅; column_widths := ∅ |} ].

(** A mutation of [wb.active]. *)
Definition on_active (f : worksheet → worksheet) (wb : workbook) : workbook :=
  match wb with
  | ws :: rest => f ws :: rest
  | [] => []
  end.

(** [ws.title = t] *)
Definition set_title (t : string) (ws : worksheet) : worksheet :=
  {| title := t; cells := cells ws; column_widths := column_widths ws |}.

(** The characters openpyxl refuses in a cell ([ILLEGAL_CHARACTERS_RE]):
    the control characters other than tab, line feed and carriage
    return. *)
Definition illegal_character (c : ascii) : bool :=
  let n := Z.of_nat (nat_of_ascii c) in
  (n <=? 8) || ((11 <=? n) && (n <=? 12)) || ((14 <=? n) && (n <=? 31)).

Fixpoint has_illegal (s : string) : bool :=
  match s with
  | EmptyString => false
  | String c rest => illegal_character c || has_illegal rest
  end.

(** [s[:n]] *)
Fixpoint prefix (n : N) (s : string) : string :=
  match s with
  | EmptyString => EmptyString
  | String c rest =>
      match n with
      | N0 => EmptyString
      | _ => String c (prefix (N.pred n) rest)
      end
  end.

(** [Cell.check_string]: the string is cut to 32767 characters, then
    refused when an illegal character is left in it. *)
Definition check_string (s : string) : exn + string :=
  let value := prefix 32767 s in
  if has_illegal value then inl IllegalCharacterError else inr value.

(** The value a cell takes when [value] is assigned to it: numbers and
    booleans as they are, strings through [check_string]; a list or a
    dictionary cannot be converted.  (The data type openpyxl infers
    beside the value, formula or number or text, is not modelled.) *)
Definition bind_value (value : pyval) : exn + pyval :=
  match value with
  | PStr s =>
      match check_string s with
      | inl e => inl e
      | inr s' => inr (PStr s')
      end
  | PList _ | PDict _ => inl ValueError
  | PNone | PBool _ | PInt _ | PFloat _ => inr value
  end.

(** [ws.cell(row=row, column=column, value=value)]: the cell is
    created, and takes the value unless that is [None]. *)
Definition set_cell (row column : nat) (value : pyval) (ws : worksheet)
  : exn + worksheet :=
  match bind_value value with
  | inl e => inl e
  | inr v =>
      inr {| title := title ws; cells := <[(row, column) := v]> (cells ws);
             column_widths := column_widths ws |}
  end.

(** [ws.column_dimensions[col].width = width] *)
Definition set_width (col : string) (width : Z) (ws : worksheet) : worksheet :=
  {| title := title ws; cells := cells ws;
     column_widths := <[col := width]> (column_widths ws) |}.

End Xlsx.

Import Xlsx.

(** ** The application *)

(** The dictionary [load_segments_from_db] appends for a row: always the
    four keys [id], [segment_name], [url], [label]. *)
Record segment := {
  seg_id : pyval;
  seg_segment_name : pyval;
  seg_url : pyval;
  seg_label : pyval;
}.

Definition segment_dict (s : segment) : pyval :=
  PDict (<["id" := seg_id s]>
           (<["segment_name" := seg_segment_name s]>
              (<["url" := seg_url s]>
                 (<["label" := seg_label s]> ∅)))).

(** What [print] wrote. *)
Inductive log_line :=
| LoadFailed (e : exn)
| UpdateFailed (segment_id : pyval) (e : exn).

(** Everything a request can read or change: the table and the calls it
    received, the module-level [pending_labels], the file at [XLSX_PATH]
    ([None]: no file yet), and standard output. *)
Record world := {
  db : list db_row;
  requests : list request;
  pending_labels : gmap Z string;
  xlsx : option workbook;
  stdout : list log_line;
}.

(** What the environment decides during one request: whether the select
    raises, whether the update sent for a given id raises (the table is
    then left as it was), and whether [wb.save] raises (the file system
    refusing the write; the file is then left as it was).  What openpyxl
    refuses in a cell depends on the value alone and is part of
    [set_cell]. *)
Record faults := {
  select_fails : bool;
  update_fails : pyval → bool;
  save_fails : bool;
}.

(** A handler either returns a response or lets an exception escape. *)
Inductive outcome :=
| Response (status : Z) (body : pyval)
| Unhandled (e : exn).

Definition send (r : request) (w : world) : world :=
  {| db := db w; requests := requests w ++ [r];
     pending_labels := pending_labels w; xlsx := xlsx w; stdout := stdout w |}.

Definition print (l : log_line) (w : world) : world :=
  {| db := db w; requests := requests w;
     pending_labels := pending_labels w; xlsx := xlsx w;
     stdout := stdout w ++ [l] |}.

Definition set_db (t : list db_row) (w : world) : world :=
  {| db := t; requests := requests w;
     pending_labels := pending_labels w; xlsx := xlsx w; stdout := stdout w |}.

Definition set_pending (p : gmap Z string) (w : world) : world :=
  {| db := db w; requests := requests w;
     pending_labels := p; xlsx := xlsx w; stdout := stdout w |}.

Definition set_xlsx (wb : workbook) (w : world) : world :=
  {| db := db w; requests := requests w;
     pending_labels := pending_labels w; xlsx := Some wb; stdout := stdout w |}.

(** *** [load_segments_from_db] *)

(** The body of the [for row in rows] loop (lines 46 to 56): the segment
    appended for [row], or the exception the membership test raises. *)
Definition load_row (pending : gmap Z string) (row : gmap string pyval)
  : exn + segment :=
  let segment_id := dict_get row "id" in
  let url := dict_get_default row "url" (PStr "") in
  let label := py_or (dict_get row "label") (PStr "") in
  match lookup_val segment_id pending with
  | inl e => inl e
  | inr staged =>
      inr {| seg_id := segment_id;
             seg_segment_name := dict_get_default row "segment_name" (PStr "");
             seg_url := url;
             seg_label := from_option PStr label staged |}
  end.

(** The loop: [segments] grows by one per row; an exception leaves the
    loop with the segments appended so far. *)
Fixpoint load_rows (pending : gmap Z string) (rows : list (gmap string pyval))
    (segments : list segment) : list segment * option exn :=
  match rows with
  | [] => (segments, None)
  | row :: rest =>
      match load_row pending row with
      | inl e => (segments, Some e)
      | inr s => load_rows pending rest (segments ++ [s])
      end
  end.

Definition load_segments_from_db (f : faults) (w : world) : list segment * world :=
  let w1 := send Select w in
  if select_fails f then ([], print (LoadFailed StoreError) w1)
  else
    let '(segments, raised) :=
      load_rows (pending_labels w) (select_null_label (db w)) [] in
    (segments,
     match raised with
     | Some e => print (LoadFailed e) w1
     | None => w1
     end).

(** *** [GET /api/segments] *)

Definition api_segments (f : faults) (w : world) : outcome * world :=
  let '(rows, w') := load_segments_from_db f w in
  (Response 200 (PDict {[ "segments" := PList (segment_dict <$> rows) ]}), w').

(** *** [POST /api/pending] *)

Definition invalid_segment_id : pyval :=
  PDict (<["ok" := PBool false]> (<["error" := PStr "invalid segment_id"]> ∅)).

Definition ok_true : pyval := PDict {[ "ok" := PBool true ]}.

(** [request.get_json(silent=True) or {}], where [body] is what
    [get_json] returns: [None] when the request carries no JSON document. *)
Definition request_data (body : option pyval) : pyval :=
  py_or (default PNone body) (PDict ∅).

(** [data.get(k, dflt)]: only a dictionary has the method. *)
Definition get (data : pyval) (k : string) (dflt : pyval) : exn + pyval :=
  match data with
  | PDict d => inr (dict_get_default d k dflt)
  | _ => inl AttributeError
  end.

(** [int(data.get("id", 0))] *)
Definition parsed_id (body : option pyval) : exn + Z :=
  match get (request_data body) "id" (PInt 0) with
  | inl e => inl e
  | inr v => py_int v
  end.

Section Pending.
Variable py_repr : pyval → string.

(** [str(data.get("label", ""))] *)
Definition parsed_label (body : option pyval) : exn + string :=
  match get (request_data body) "label" (PStr "") with
  | inl e => inl e
  | inr v => inr (py_str py_repr v)
  end.

Definition api_pending (body : option pyval) (w : world) : outcome * world :=
  match parsed_id body with
  | inl e => (Unhandled e, w)
  | inr segment_id =>
      match parsed_label body with
      | inl e => (Unhandled e, w)
      | inr label =>
          if segment_id <=? 0 then (Response 400 invalid_segment_id, w)
          else
            (Response 200 ok_true,
             set_pending (<[segment_id := label]> (pending_labels w)) w)
      end
  end.
End Pending.

(** *** [POST /api/commit] *)

(** The body of the first loop (lines 92 to 98). *)
Definition commit_segment (f : faults) (s : segment) (w : world)
  : option exn * world :=
  let segment_id := seg_id s in
  match lookup_val segment_id (pending_labels w) with
  | inl e => (Some e, w)
  | inr None => (None, w)
  | inr (Some label) =>
      let w' := send (Update segment_id label) w in
      if update_fails f segment_id
      then (None, print (UpdateFailed segment_id StoreError) w')
      else (None, set_db (update_label segment_id label (db w')) w')
  end.

Fixpoint commit_loop (f : faults) (segments : list segment) (w : world)
  : option exn * world :=
  match segments with
  | [] => (None, w)
  | s :: rest =>
      match commit_segment f s w with
      | (Some e, w') => (Some e, w')
      | (None, w') => commit_loop f rest w'
      end
  end.

(** The second loop (lines 110 to 118), writing from row [row_idx] on;
    the first [ws.cell] that raises ends it. *)
Fixpoint write_rows (segments : list segment) (row_idx : nat) (ws : worksheet)
  : exn + worksheet :=
  match segments with
  | [] => inr ws
  | s :: rest =>
      ws ← set_cell row_idx 1 (seg_segment_name s) ws;
      ws ← set_cell row_idx 2 (seg_url s) ws;
      ws ← set_cell row_idx 3 (seg_label s) ws;
      write_rows rest (S row_idx) ws
  end.

(** Lines 101 to 118, on the active sheet [ws]. *)
Definition fill_sheet (segments : list segment) (ws : worksheet) : exn + worksheet :=
  let ws := set_title "results" ws in
  ws ← set_cell 1 1 (PStr "segment_name") ws;
  ws ← set_cell 1 2 (PStr "url") ws;
  ws ← set_cell 1 3 (PStr "label") ws;
  let ws := set_width "A" 40 ws in
  let ws := set_width "B" 80 ws in
  let ws := set_width "C" 15 ws in
  write_rows segments 2 ws.

(** Lines 100 to 118: the workbook handed to [wb.save], or the exception
    a [ws.cell] raised. *)
Definition build_workbook (segments : list segment) : exn + workbook :=
  match Workbook with
  | ws :: others => ws' ← fill_sheet segments ws; inr (ws' :: others)
  | [] => inr []
  end.

(** [wb.save(XLSX_PATH)]: the file is replaced, or the write raises. *)
Definition save (f : faults) (wb : workbook) (w : world) : option exn * world :=
  if save_fails f then (Some OSError, w) else (None, set_xlsx wb w).

Definition api_commit (f : faults) (w : world) : outcome * world :=
  let '(segments, w1) := load_segments_from_db f w in
  match commit_loop f segments w1 with
  | (Some e, w2) => (Unhandled e, w2)
  | (None, w2) =>
      match build_workbook segments with
      | inl e => (Unhandled e, w2)
      | inr wb =>
          match save f wb w2 with
          | (Some e, w3) => (Unhandled e, w3)
          | (None, w3) => (Response 200 ok_true, set_pending ∅ w3)
          end
      end
  end.


(** ** Vocabulary of the statements *)

(** The rows with a NULL label, in table order. *)
Definition unlabeled (t : list db_row) : list db_row :=
  filter (λ r, col_label r = None) t.

(** A table row as it is presented: its own cells, and as label the
    staged one when [pending] has one for the row's id. *)
Definition overlay (pending : gmap Z string) (r : db_row) : segment :=
  {| seg_id := PInt (col_id r);
     seg_segment_name := cell (col_segment_name r);
     seg_url := cell (col_url r);
     seg_label :=
       from_option PStr (py_or (cell (col_label r)) (PStr "")) (pending !! col_id r) |}.

(** The updates a commit sends for the rows [rs]: one per row that has a
    staged label, in order. *)
Definition staged_updates (pending : gmap Z string) (rs : list db_row)
  : list (Z * string) :=
  omap (λ r, (λ l, (col_id r, l)) <$> pending !! col_id r) rs.

Definition fails (f : faults) (u : Z * string) : bool := update_fails f (PInt u.1).

Definition apply_update (t : list db_row) (u : Z * string) : list db_row :=
  update_label (PInt u.1) u.2 t.

(** What becomes of a table row in a commit that loaded the rows [rs]:
    it takes the staged label when a loaded row carries its id, that id
    is staged, and the update sent for that id did not fail. *)
Definition committed (f : faults) (pending : gmap Z string) (rs : list db_row)
    (r : db_row) : db_row :=
  match pending !! col_id r with
  | Some l =>
      if bool_decide (col_id r ∈ col_id <$> rs) && negb (update_fails f (PInt (col_id r)))
      then set_label l r else r
  | None => r
  end.

(** The rows a request loads: none when the select fails. *)
Definition loaded_rows (f : faults) (w : world) : list db_row :=
  if select_fails f then [] else unlabeled (db w).

Definition update_request (u : Z * string) : request := Update (PInt u.1) u.2.

Definition update_failed (u : Z * string) : log_line :=
  UpdateFailed (PInt u.1) StoreError.

(** One pass of the first loop of [api_commit] for a staged row. *)
Definition do_update (f : faults) (w : world) (u : Z * string) : world :=
  let w' := send (update_request u) w in
  if fails f u then print (update_failed u) w'
  else set_db (apply_update (db w') u) w'.

(** The world when the first loop of [api_commit] is over. *)
Definition after_updates (f : faults) (w : world) : world :=
  let rs := loaded_rows f w in
  let us := staged_updates (pending_labels w) rs in
  {| db := committed f (pending_labels w) rs <$> db w;
     requests := requests w ++ Select :: (update_request <$> us);
     pending_labels := pending_labels w;
     xlsx := xlsx w;
     stdout := stdout w
               ++ (if select_fails f then [LoadFailed StoreError] else [])
               ++ (update_failed <$> filter (λ u, fails f u = true) us) |}.

(** The cell of a data row under a column. *)
Definition row_cell (s : segment) (column : nat) : option pyval :=
  match column with
  | 1%nat => Some (seg_segment_name s)
  | 2%nat => Some (seg_url s)
  | 3%nat => Some (seg_label s)
  | _ => None
  end.

Definition header : segment :=
  {| seg_id := PNone; seg_segment_name := PStr "segment_name";
     seg_url := PStr "url"; seg_label := PStr "label" |}.

(** What a cell holds once a value openpyxl accepts has been assigned to
    it: a string is cut to its first 32767 characters. *)
Definition stored (v : pyval) : pyval :=
  match v with
  | PStr s => PStr (prefix 32767 s)
  | _ => v
  end.

Definition stored_segment (s : segment) : segment :=
  {| seg_id := seg_id s; seg_segment_name := stored (seg_segment_name s);
     seg_url := stored (seg_url s); seg_label := stored (seg_label s) |}.

(** Whether openpyxl accepts a value for a cell: no list, no dictionary,
    and no illegal character among the first 32767 of a string. *)
Definition writable (v : pyval) : bool :=
  match v with
  | PStr s => negb (has_illegal (prefix 32767 s))
  | PList _ | PDict _ => false
  | PNone | PBool _ | PInt _ | PFloat _ => true
  end.

Definition exportable (s : segment) : bool :=
  writable (seg_segment_name s) && writable (seg_url s) && writable (seg_label s).

(** The exception, if any, that writing the cells of [segments] raises:
    that of the first value refused, rows in order and name, url, label
    in each. *)
Definition cell_error (v : pyval) : option exn :=
  match bind_value v with
  | inl e => Some e
  | inr _ => None
  end.

Definition segment_error (s : segment) : option exn :=
  match cell_error (seg_segment_name s) with
  | Some e => Some e
  | None =>
      match cell_error (seg_url s) with
      | Some e => Some e
      | None => cell_error (seg_label s)
      end
  end.

Fixpoint export_error (segments : list segment) : option exn :=
  match segments with
  | [] => None
  | s :: rest =>
      match segment_error s with
      | Some e => Some e
      | None => export_error rest
      end
  end.

(** The cell a workbook built from [segments] holds at a position: the
    header in row 1, the i-th segment in row i + 2, nothing elsewhere. *)
Definition expected_cell (segments : list segment) (row column : nat) : option pyval :=
  match row with
  | 0%nat => None
  | 1%nat => row_cell header column
  | S (S i) => segments !! i ≫= λ s, row_cell (stored_segment s) column
  end.

(** The sheet with the header alone, and the sheet of [segments]: the
    cells of row [i + 2] hold what is stored for the i-th segment. *)
Definition put_cell (row column : nat) (v : pyval) (ws : worksheet) : worksheet :=
  {| title := title ws; cells := <[(row, column) := v]> (cells ws);
     column_widths := column_widths ws |}.

Fixpoint put_rows (segments : list segment) (row_idx : nat) (ws : worksheet)
  : worksheet :=
  match segments with
  | [] => ws
  | s :: rest =>
      put_rows rest (S row_idx)
        (put_cell row_idx 3 (seg_label s)
           (put_cell row_idx 2 (seg_url s)
              (put_cell row_idx 1 (seg_segment_name s) ws)))
  end.

Definition header_sheet : worksheet :=
  {| title := "results";
     cells := <[(1, 3)%nat := PStr "label"]>
                (<[(1, 2)%nat := PStr "url"]>
                   (<[(1, 1)%nat := PStr "segment_name"]> ∅));
     column_widths := <["C" := 15]> (<["B" := 80]> (<["A" := 40]> ∅)) |}.

Definition results_sheet (segments : list segment) : worksheet :=
  put_rows (stored_segment <$> segments) 2 header_sheet.

(** The label a table row holds after a commit that loaded the rows
    [rs]: the staged one when a loaded row carries its id, that id is
    staged and the update sent for it did not fail; its own otherwise. *)
Definition label_after (f : faults) (pending : gmap Z string) (rs : list db_row)
    (r : db_row) : option string :=
  match pending !! col_id r with
  | Some l =>
      if bool_decide (col_id r ∈ col_id <$> rs) && negb (update_fails f (PInt (col_id r)))
      then Some l else col_label r
  | None => col_label r
  end.

(** The segments a commit loads. *)
Definition loaded_segments (f : faults) (w : world) : list segment :=
  overlay (pending_labels w) <$> loaded_rows f w.


(** The faults of a request whose workbook is written, and of one whose
    write raises. *)
Definition saving (sf : bool) (uf : pyval → bool) : faults :=
  {| select_fails := sf; update_fails := uf; save_fails := false |}.

Definition not_saving (sf : bool) (uf : pyval → bool) : faults :=
  {| select_fails := sf; update_fails := uf; save_fails := true |}.

(** Sample data for the closed statements. *)
Definition fails_on_7 (segment_id : pyval) : bool :=
  match segment_id with
  | PInt 7 => true
  | _ => false
  end.


Definition no_faults : faults :=
  {| select_fails := false; update_fails := λ _, false; save_fails := false |}.

Definition fresh (t : list db_row) (pending : gmap Z string) : world :=
  {| db := t; requests := []; pending_labels := pending; xlsx := None; stdout := [] |}.

Definition row7 : db_row :=
  {| col_id := 7; col_segment_name := Some "seg7";
     col_url := Some "http://x/7.png"; col_label := None |}.

Definition row8 : db_row :=
  {| col_id := 8; col_segment_name := Some "seg8";
     col_url := Some "http://x/8.png"; col_label := Some "" |}.

Definition row9 : db_row :=
  {| col_id := 9; col_segment_name := Some "seg9";
     col_url := Some "http://x/9.png"; col_label := None |}.

(** A label with a control character in it: [a], U+0001, [b]. *)
Definition ctrl_label : string :=
  String "a" (String (ascii_of_nat 1) (String "b" EmptyString)).

(** A stand-in for [repr], to run [api_pending] on concrete requests. *)
Definition sample_repr (v : pyval) : string := "<repr>".

Definition stage_request (id : pyval) (label : pyval) : option pyval :=
  Some (PDict (<["id" := id]> (<["label" := label]> ∅))).

(** The double nearest to 2.9. *)
Definition float_2_9 : spec_float := S754_finite false 6530219459687219 (-51).

(** ** The server and further vocabulary *)

(** The three routes that read or change the state.  ([GET /] renders a
    template and touches nothing.) *)
Inductive call :=
| GetSegments
| PostPending (body : option pyval)
| PostCommit.

Section Serve.
Variable py_repr : pyval → string.

(** One request, under the faults the environment shows during it. *)
Definition serve (f : faults) (c : call) (w : world) : outcome * world :=
  match c with
  | GetSegments => api_segments f w
  | PostPending body => api_pending py_repr body w
  | PostCommit => api_commit f w
  end.

(** Requests handled one after the other. *)
Fixpoint serve_all (cs : list (faults * call)) (w : world) : list outcome * world :=
  match cs with
  | [] => ([], w)
  | (f, c) :: rest =>
      let '(o, w1) := serve f c w in
      let '(os, w2) := serve_all rest w1 in
      (o :: os, w2)
  end.
End Serve.

(** Every key of the staging dictionary is a positive integer. *)
Definition positive_keys (p : gmap Z string) : Prop :=
  map_Forall (λ k _, 0 < k) p.

(** What a table row is apart from its label. *)
Definition identity (r : db_row) : Z * option string * option string :=
  (col_id r, col_segment_name r, col_url r).

(** Whether [x in pending_labels] can be evaluated for [x = v]. *)
Definition hashable (v : pyval) : bool :=
  match int_key v with
  | inl _ => false
  | inr _ => true
  end.

(** Whether a commit that reached the store wrote the staged label of
    the row's id. *)
Definition updated (uf : pyval → bool) (p : gmap Z string) (r : db_row) : bool :=
  bool_decide (is_Some (p !! col_id r)) && negb (uf (PInt (col_id r))).

(** A listed segment after [label] has been staged for id [k]. *)
Definition restaged (k : Z) (label : string) (s : segment) : segment :=
  match seg_id s with
  | PInt j =>
      if j =? k
      then {| seg_id := seg_id s; seg_segment_name := seg_segment_name s;
              seg_url := seg_url s; seg_label := PStr label |}
      else s
  | _ => s
  end.

(** * Properties *)

Example int_of_str_examples :
  int_of_str "12" = Some 12 ∧ int_of_str " -7 " = Some (-7) ∧
  int_of_str "1_000" = Some 1000 ∧ int_of_str "abc" = None ∧
  int_of_str "" = None ∧ int_of_str "2.9" = None ∧ int_of_str "1__0" = None ∧
  int_of_str "+" = None ∧ int_of_str "007" = Some 7 ∧ int_of_str "1 2" = None.
Proof. vm_compute. repeat split; reflexivity. Qed.

Example py_str_examples r :
  py_str r (PInt (-5)) = "-5" ∧ py_str r (PInt 0) = "0" ∧ py_str r (PInt 120) = "120".
Proof. vm_compute. repeat split; reflexivity. Qed.

(** ** The loader *)

Lemma to_dict_id r : to_dict r !! "id" = Some (PInt (col_id r)).
Proof. unfold to_dict. by simplify_map_eq. Qed.

Lemma to_dict_segment_name r :
  to_dict r !! "segment_name" = Some (cell (col_segment_name r)).
Proof. unfold to_dict. by simplify_map_eq. Qed.

Lemma to_dict_url r : to_dict r !! "url" = Some (cell (col_url r)).
Proof. unfold to_dict. by simplify_map_eq. Qed.

Lemma to_dict_label r : to_dict r !! "label" = Some (cell (col_label r)).
Proof. unfold to_dict. by simplify_map_eq. Qed.

Lemma load_row_to_dict pending r :
  load_row pending (to_dict r) = inr (overlay pending r).
Proof.
  unfold load_row, overlay, dict_get, dict_get_default.
  rewrite to_dict_id, to_dict_segment_name, to_dict_url, to_dict_label.
  reflexivity.
Qed.

Lemma load_rows_to_dict pending rs acc :
  load_rows pending (to_dict <$> rs) acc = (acc ++ (overlay pending <$> rs), None).
Proof.
  revert acc. induction rs as [|r rs IH]; intros acc; simpl.
  - by rewrite app_nil_r.
  - rewrite load_row_to_dict, IH, <- app_assoc. reflexivity.
Qed.

Lemma load_segments_from_db_eq f w :
  load_segments_from_db f w =
  if select_fails f
  then ([], print (LoadFailed StoreError) (send Select w))
  else (overlay (pending_labels w) <$> unlabeled (db w), send Select w).
Proof.
  unfold load_segments_from_db, select_null_label, unlabeled.
  destruct (select_fails f); [reflexivity|].
  by rewrite load_rows_to_dict.
Qed.

Lemma overlay_unlabeled pending r :
  col_label r = None →
  seg_label (overlay pending r) = from_option PStr (PStr "") (pending !! col_id r).
Proof. intros H. unfold overlay; simpl. by rewrite H. Qed.

(** C1.  On the table [row7; row8; row9], where [row8] has the empty
    string as its label and the other two have NULL, a load that reaches
    the store returns the segments of [row7] and [row9] only: the query
    filters on NULL alone, so the row whose stored label is the empty
    string is left out.  The application produces such rows itself:
    committing the staged label [""] for [row7] stores the empty string,
    and the next load no longer returns the row. *)
Theorem load_omits_empty_label :
  col_label row8 = Some "" ∧
  (load_segments_from_db no_faults (fresh [row7; row8; row9] ∅)).1
  = [overlay ∅ row7; overlay ∅ row9] ∧
  db (api_commit no_faults (fresh [row7] {[ 7 := "" ]})).2 = [set_label "" row7] ∧
  (load_segments_from_db no_faults
     (api_commit no_faults (fresh [row7] {[ 7 := "" ]})).2).1 = [].
Proof. repeat split. Qed.

(** No row with a non-NULL label is ever loaded, staged or not, and every
    row with a NULL label is, unless the select fails. *)
Lemma load_segments_unlabeled f w :
  (load_segments_from_db f w).1 =
  if select_fails f then [] else overlay (pending_labels w) <$> unlabeled (db w).
Proof. rewrite load_segments_from_db_eq. by destruct (select_fails f). Qed.

Lemma load_segments_world f w :
  (load_segments_from_db f w).2 =
  if select_fails f then print (LoadFailed StoreError) (send Select w)
  else send Select w.
Proof. rewrite load_segments_from_db_eq. by destruct (select_fails f). Qed.

(** C9.  Loading, and so listing, leaves [pending_labels] as it was,
    whatever it held and whether or not the select fails. *)
Theorem load_keeps_pending_labels f w :
  pending_labels (load_segments_from_db f w).2 = pending_labels w ∧
  pending_labels (api_segments f w).2 = pending_labels w.
Proof.
  assert (pending_labels (load_segments_from_db f w).2 = pending_labels w) as H.
  { rewrite load_segments_world. by destruct (select_fails f). }
  split; [exact H|].
  unfold api_segments. by destruct (load_segments_from_db f w).
Qed.

(** C6.  Listing never lets an exception escape: whatever the faults, the
    outcome is a 200 response whose body is [{segments: [...]}] over the
    loaded segments; when the select raises, the exception is printed and
    the list is empty. *)
Theorem api_segments_always_responds f w :
  (api_segments f w).1
  = Response 200
      (PDict {[ "segments" := PList (segment_dict <$> (load_segments_from_db f w).1) ]}) ∧
  ∀ uf sf,
    api_segments {| select_fails := true; update_fails := uf; save_fails := sf |} w
    = (Response 200 (PDict {[ "segments" := PList [] ]}),
       print (LoadFailed StoreError) (send Select w)).
Proof.
  split.
  - unfold api_segments. by destruct (load_segments_from_db f w).
  - intros uf sf. unfold api_segments. by rewrite load_segments_from_db_eq.
Qed.

(** ** Staging *)

Lemma request_data_none : request_data None = PDict ∅.
Proof. reflexivity. Qed.

Lemma request_data_dict d : request_data (Some (PDict d)) = PDict d.
Proof.
  unfold request_data, py_or; simpl.
  destruct (size d =? 0)%nat eqn:E; simpl; [|reflexivity].
  apply Nat.eqb_eq, map_size_empty_iff in E. by rewrite E.
Qed.

Lemma parsed_id_dict d :
  parsed_id (Some (PDict d)) = py_int (dict_get_default d "id" (PInt 0)).
Proof. unfold parsed_id. by rewrite request_data_dict. Qed.

Lemma parsed_label_dict r d :
  parsed_label r (Some (PDict d))
  = inr (py_str r (dict_get_default d "label" (PStr ""))).
Proof. unfold parsed_label. by rewrite request_data_dict. Qed.

Lemma parsed_label_total r body k :
  parsed_id body = inr k → ∃ label, parsed_label r body = inr label.
Proof.
  unfold parsed_id, parsed_label, get.
  destruct (request_data body); try discriminate. eauto.
Qed.

Lemma api_pending_invalid r body w k label :
  parsed_id body = inr k → parsed_label r body = inr label → k ≤ 0 →
  api_pending r body w = (Response 400 invalid_segment_id, w).
Proof.
  intros Hk Hl Hle. unfold api_pending. rewrite Hk, Hl.
  by rewrite (proj2 (Z.leb_le k 0) Hle).
Qed.

Lemma api_pending_valid r body w k label :
  parsed_id body = inr k → parsed_label r body = inr label → 0 < k →
  api_pending r body w
  = (Response 200 ok_true, set_pending (<[k := label]> (pending_labels w)) w).
Proof.
  intros Hk Hl Hlt. unfold api_pending. rewrite Hk, Hl.
  by rewrite (proj2 (Z.leb_gt k 0) Hlt).
Qed.

Lemma api_pending_raises r body w e :
  parsed_id body = inl e → api_pending r body w = (Unhandled e, w).
Proof. intros He. unfold api_pending. by rewrite He. Qed.

(** [int] of a finite float is its value rounded toward zero. *)
Lemma int_of_float_truncates s m e :
  int_of_float (S754_finite s m e)
  = inr (if 0 <=? e then (if s then - Z.pos m else Z.pos m) * 2 ^ e
         else (if s then - Z.pos m else Z.pos m) ÷ 2 ^ (- e)).
Proof.
  unfold int_of_float. f_equal.
  destruct (0 <=? e) eqn:E.
  - apply Z.leb_le in E. rewrite Z.shiftl_mul_pow2 by done. destruct s; lia.
  - apply Z.leb_gt in E.
    rewrite Z.shiftl_div_pow2 by lia.
    assert (0 < 2 ^ (- e)) by (apply Z.pow_pos_nonneg; lia).
    destruct s.
    + rewrite Z.quot_opp_l by lia. rewrite Z.quot_div_nonneg by lia. done.
    + rewrite Z.quot_div_nonneg by lia. done.
Qed.

(** C2.  When [int(data.get("id", 0))] yields [segment_id]: if
    [segment_id <= 0] the answer is 400 with
    [{ok: false, error: "invalid segment_id"}] and the world, so
    [pending_labels], is untouched; if [segment_id > 0] the answer is
    [{ok: true}] and [pending_labels[segment_id]] is set to the coerced
    label, whatever it held and whatever the table holds (the table is
    not consulted: the statement holds for every world). *)
Theorem api_pending_validates r body w segment_id :
  parsed_id body = inr segment_id →
  ∃ label,
    parsed_label r body = inr label ∧
    (segment_id ≤ 0 →
     api_pending r body w = (Response 400 invalid_segment_id, w)) ∧
    (0 < segment_id →
     api_pending r body w
     = (Response 200 ok_true,
        set_pending (<[segment_id := label]> (pending_labels w)) w)).
Proof.
  intros Hk. destruct (parsed_label_total r body _ Hk) as [label Hl].
  exists label. split; [exact Hl|]. split; intros H.
  - by apply (api_pending_invalid r body w segment_id label).
  - by apply api_pending_valid.
Qed.

Lemma api_pending_validates_witness :
  api_pending sample_repr (stage_request (PInt 0) (PStr "cat")) (fresh [row7] {[ 7 := "dog" ]})
  = (Response 400 invalid_segment_id, fresh [row7] {[ 7 := "dog" ]}) ∧
  api_pending sample_repr (stage_request (PInt 12) (PStr "cat")) (fresh [row7] {[ 7 := "dog" ]})
  = (Response 200 ok_true, fresh [row7] (<[ 12 := "cat" ]> {[ 7 := "dog" ]})).
Proof.
  split.
  - destruct (api_pending_validates sample_repr (stage_request (PInt 0) (PStr "cat"))
                (fresh [row7] {[ 7 := "dog" ]}) 0 eq_refl) as (l & _ & H & _).
    apply H. lia.
  - destruct (api_pending_validates sample_repr (stage_request (PInt 12) (PStr "cat"))
                (fresh [row7] {[ 7 := "dog" ]}) 12 eq_refl) as (l & Hl & _ & H).
    rewrite H by lia. injection Hl as <-. reflexivity.
Defined.

(** C10.  The stage endpoint coerces its fields.  (a) Without a body, or
    with a body that has no [id], the id is 0 and the answer is the 400
    response.  (b) A float id is rounded toward zero by [int] and the
    request is handled as if it carried that integer; [2.9] stages key 2.
    (c) When [int] raises on the id, as it does on [None] (TypeError) and
    on ["abc"] (ValueError), the exception escapes the handler and nothing
    is staged.  (d) With a positive id, any value under [label] is
    accepted: its [str] is what gets staged. *)
Theorem api_pending_coerces r w :
  (api_pending r None w = (Response 400 invalid_segment_id, w) ∧
   ∀ d, d !! "id" = None →
        api_pending r (Some (PDict d)) w = (Response 400 invalid_segment_id, w)) ∧
  ((∀ d s m e k, d !! "id" = Some (PFloat (S754_finite s m e)) →
      k = (if 0 <=? e then (if s then - Z.pos m else Z.pos m) * 2 ^ e
           else (if s then - Z.pos m else Z.pos m) ÷ 2 ^ (- e)) →
      api_pending r (Some (PDict d)) w
      = api_pending r (Some (PDict (<["id" := PInt k]> d))) w) ∧
   api_pending r (stage_request (PFloat float_2_9) (PStr "cat")) w
   = (Response 200 ok_true, set_pending (<[2 := "cat"]> (pending_labels w)) w)) ∧
  ((∀ d v e, d !! "id" = Some v → py_int v = inl e →
      api_pending r (Some (PDict d)) w = (Unhandled e, w)) ∧
   py_int PNone = inl TypeError ∧ py_int (PStr "abc") = inl ValueError) ∧
  (∀ d k v, parsed_id (Some (PDict d)) = inr k → 0 < k → d !! "label" = Some v →
      api_pending r (Some (PDict d)) w
      = (Response 200 ok_true,
         set_pending (<[k := py_str r v]> (pending_labels w)) w)).
Proof.
  split; [split|split; [split|split; [split; [|split]|]]].
  - reflexivity.
  - intros d Hd.
    apply (api_pending_invalid r _ w 0 (py_str r (dict_get_default d "label" (PStr "")))).
    + rewrite parsed_id_dict. unfold dict_get_default. by rewrite Hd.
    + apply parsed_label_dict.
    + lia.
  - intros d s m e k Hd ->.
    unfold api_pending.
    rewrite !parsed_id_dict, !parsed_label_dict. unfold dict_get_default.
    rewrite Hd, lookup_insert_eq, lookup_insert_ne by done. simpl default.
    unfold py_int at 1. rewrite int_of_float_truncates. reflexivity.
  - reflexivity.
  - intros d v e Hd He. apply api_pending_raises.
    rewrite parsed_id_dict. unfold dict_get_default. by rewrite Hd.
  - reflexivity.
  - reflexivity.
  - intros d k v Hk Hpos Hv. apply api_pending_valid; [exact Hk| |exact Hpos].
    rewrite parsed_label_dict. unfold dict_get_default. by rewrite Hv.
Qed.

Lemma api_pending_coerces_witness :
  api_pending sample_repr (Some (PDict ∅)) (fresh [] ∅)
  = (Response 400 invalid_segment_id, fresh [] ∅) ∧
  api_pending sample_repr (stage_request (PStr "abc") (PStr "cat")) (fresh [] ∅)
  = (Unhandled ValueError, fresh [] ∅) ∧
  api_pending sample_repr (stage_request PNone (PStr "cat")) (fresh [] ∅)
  = (Unhandled TypeError, fresh [] ∅) ∧
  api_pending sample_repr (stage_request (PInt 3) (PBool true)) (fresh [] ∅)
  = (Response 200 ok_true, fresh [] {[ 3 := "True" ]}).
Proof.
  destruct (api_pending_coerces sample_repr (fresh [] ∅))
    as ((_ & Ha) & _ & (Hc & _ & _) & Hd).
  split; [|split; [|split]].
  - apply Ha. reflexivity.
  - apply (Hc _ (PStr "abc")); reflexivity.
  - apply (Hc _ PNone); reflexivity.
  - etrans; [apply (Hd _ 3 (PBool true)); [reflexivity|lia|reflexivity]|reflexivity].
Defined.

Lemma listing_shows_staged f w s k l :
  s ∈ (load_segments_from_db f w).1 → seg_id s = PInt k →
  pending_labels w !! k = Some l → seg_label s = PStr l.
Proof.
  rewrite load_segments_unlabeled. destruct (select_fails f).
  - intros H. by apply elem_of_nil in H.
  - intros (row & -> & _)%list_elem_of_fmap Hid Hl. simpl in *.
    injection Hid as ->. by rewrite Hl.
Qed.

Lemma load_row_staged pending row l :
  lookup_val (dict_get row "id") pending = inr (Some l) →
  ∃ s, load_row pending row = inr s ∧ seg_label s = PStr l.
Proof. intros H. unfold load_row. rewrite H. eauto. Qed.

Lemma api_pending_idempotent r body w :
  api_pending r body (api_pending r body w).2 = api_pending r body w.
Proof.
  unfold api_pending.
  destruct (parsed_id body) as [e|k]; [reflexivity|].
  destruct (parsed_label r body) as [e|label]; [reflexivity|].
  destruct (k <=? 0); [reflexivity|].
  unfold set_pending; simpl. by rewrite insert_insert_eq.
Qed.

(** C7.  (1) Staging [k] twice leaves the world that staging the second
    request alone leaves: [pending_labels[k]] is the second label, and
    every listed segment with id [k] shows it.  (2) Staging a request
    again changes neither the answer nor the world.  (3) When the id of a
    row is in [pending_labels], the segment built for the row carries the
    staged label whatever the row's own label is, and so does every
    segment of a listing. *)
Theorem staging_last_write_wins r :
  (∀ b1 b2 w k l2,
     parsed_id b1 = inr k → parsed_id b2 = inr k → 0 < k →
     parsed_label r b2 = inr l2 →
     (api_pending r b2 (api_pending r b1 w).2).2 = (api_pending r b2 w).2 ∧
     pending_labels (api_pending r b2 (api_pending r b1 w).2).2 !! k = Some l2 ∧
     ∀ f s, s ∈ (load_segments_from_db f (api_pending r b2 (api_pending r b1 w).2).2).1 →
            seg_id s = PInt k → seg_label s = PStr l2) ∧
  (∀ body w, api_pending r body (api_pending r body w).2 = api_pending r body w) ∧
  (∀ pending row l,
     lookup_val (dict_get row "id") pending = inr (Some l) →
     ∃ s, load_row pending row = inr s ∧ seg_label s = PStr l) ∧
  (∀ f w s k l,
     s ∈ (load_segments_from_db f w).1 → seg_id s = PInt k →
     pending_labels w !! k = Some l → seg_label s = PStr l).
Proof.
  split; [|split; [|split]].
  - intros b1 b2 w k l2 H1 H2 Hk Hl2.
    destruct (parsed_label_total r b1 k H1) as [l1 Hl1].
    rewrite (api_pending_valid r b1 w k l1 H1 Hl1 Hk).
    rewrite !(api_pending_valid r b2 _ k l2 H2 Hl2 Hk).
    assert (set_pending (<[k:=l2]> (pending_labels (set_pending (<[k:=l1]> (pending_labels w)) w)))
              (set_pending (<[k:=l1]> (pending_labels w)) w)
            = set_pending (<[k:=l2]> (pending_labels w)) w) as E.
    { unfold set_pending; simpl. by rewrite insert_insert_eq. }
    cbn [snd]. rewrite E. split; [reflexivity|].
    assert (pending_labels (set_pending (<[k:=l2]> (pending_labels w)) w) !! k = Some l2) as Hp.
    { simpl. apply lookup_insert_eq. }
    split; [exact Hp|].
    intros f s Hs Hid. exact (listing_shows_staged f _ s k l2 Hs Hid Hp).
  - apply api_pending_idempotent.
  - apply load_row_staged.
  - apply listing_shows_staged.
Qed.

Lemma staging_last_write_wins_witness :
  (api_pending sample_repr (stage_request (PInt 7) (PStr "cat"))
     (api_pending sample_repr (stage_request (PInt 7) (PStr "dog")) (fresh [row7] ∅)).2).2
  = fresh [row7] {[ 7 := "cat" ]} ∧
  (load_segments_from_db no_faults (fresh [row7] {[ 7 := "cat" ]})).1
  = [ {| seg_id := PInt 7; seg_segment_name := PStr "seg7";
         seg_url := PStr "http://x/7.png"; seg_label := PStr "cat" |} ].
Proof.
  destruct (staging_last_write_wins sample_repr) as (H & _).
  destruct (H (stage_request (PInt 7) (PStr "dog")) (stage_request (PInt 7) (PStr "cat"))
              (fresh [row7] ∅) 7 "cat" eq_refl eq_refl eq_refl eq_refl) as (E & _ & _).
  split; [rewrite E|]; reflexivity.
Defined.

(** ** Commit: the update loop *)

Lemma commit_segment_overlay f p r w :
  commit_segment f (overlay p r) w
  = (None, from_option (λ l, do_update f w (col_id r, l)) w
             (pending_labels w !! col_id r)).
Proof.
  unfold commit_segment, lookup_val; simpl.
  destruct (pending_labels w !! col_id r) as [l|]; simpl; [|reflexivity].
  unfold do_update, fails; simpl.
  by destruct (update_fails f (PInt (col_id r))).
Qed.

Lemma do_update_pending f w u : pending_labels (do_update f w u) = pending_labels w.
Proof. unfold do_update. by destruct (fails f u). Qed.

Lemma commit_loop_overlay f p rs w :
  commit_loop f (overlay p <$> rs) w
  = (None, foldl (do_update f) w (staged_updates (pending_labels w) rs)).
Proof.
  revert w. induction rs as [|r rs IH]; intros w; [reflexivity|].
  rewrite fmap_cons. cbn [commit_loop]. rewrite commit_segment_overlay.
  unfold staged_updates. cbn [omap list_omap].
  destruct (pending_labels w !! col_id r) as [l|] eqn:E; cbn.
  - rewrite IH, do_update_pending. reflexivity.
  - apply IH.
Qed.

Lemma foldl_do_update f us w :
  foldl (do_update f) w us
  = {| db := foldl apply_update (db w) (filter (λ u, fails f u = false) us);
       requests := requests w ++ (update_request <$> us);
       pending_labels := pending_labels w;
       xlsx := xlsx w;
       stdout := stdout w ++ (update_failed <$> filter (λ u, fails f u = true) us) |}.
Proof.
  revert w. induction us as [|u us IH]; intros w.
  - cbn. rewrite !app_nil_r. by destruct w.
  - cbn [foldl]. rewrite IH. rewrite !filter_cons. unfold do_update.
    destruct (fails f u) eqn:E; repeat case_decide; try congruence; cbn;
      rewrite <- ?app_assoc; reflexivity.
Qed.

Lemma staged_updates_cons p r rs :
  staged_updates p (r :: rs)
  = from_option (λ l, [(col_id r, l)]) [] (p !! col_id r) ++ staged_updates p rs.
Proof.
  unfold staged_updates. cbn [omap list_omap].
  by destruct (p !! col_id r).
Qed.

Lemma committed_skip f p r0 rs r :
  (p !! col_id r0 = None ∨ update_fails f (PInt (col_id r0)) = true) →
  committed f p (r0 :: rs) r = committed f p rs r.
Proof.
  intros H. unfold committed.
  destruct (p !! col_id r) as [l|] eqn:El; [|reflexivity].
  destruct (update_fails f (PInt (col_id r))) eqn:Ef.
  { by rewrite !andb_false_r. }
  rewrite !andb_true_r. rewrite fmap_cons.
  assert (col_id r ≠ col_id r0) as Hne.
  { intros Heq. rewrite Heq in El, Ef. destruct H; congruence. }
  rewrite (bool_decide_ext (col_id r ∈ col_id r0 :: (col_id <$> rs))
             (col_id r ∈ col_id <$> rs)); [reflexivity|].
  rewrite elem_of_cons. tauto.
Qed.

Lemma committed_update f p r0 rs l0 r :
  p !! col_id r0 = Some l0 → update_fails f (PInt (col_id r0)) = false →
  committed f p rs (if id_is (PInt (col_id r0)) r then set_label l0 r else r)
  = committed f p (r0 :: rs) r.
Proof.
  intros Hl Hf. unfold id_is.
  destruct (col_id r0 =? col_id r) eqn:E.
  - apply Z.eqb_eq in E. unfold committed; cbn [col_id set_label].
    rewrite <- E, Hl, Hf, !andb_true_r, fmap_cons.
    rewrite (bool_decide_eq_true_2 (col_id r0 ∈ col_id r0 :: (col_id <$> rs)))
      by apply list_elem_of_here.
    by destruct (bool_decide (col_id r0 ∈ col_id <$> rs)).
  - apply Z.eqb_neq in E. unfold committed.
    destruct (p !! col_id r) as [l|]; [|reflexivity].
    rewrite fmap_cons.
    rewrite (bool_decide_ext (col_id r ∈ col_id r0 :: (col_id <$> rs))
               (col_id r ∈ col_id <$> rs)); [reflexivity|].
    rewrite elem_of_cons. split; [intros [?|?]; congruence | tauto].
Qed.

(** Applying the updates that did not fail, one after the other, changes
    each table row on its own. *)
Lemma foldl_apply_update f p rs t :
  foldl apply_update t (filter (λ u, fails f u = false) (staged_updates p rs))
  = committed f p rs <$> t.
Proof.
  revert t. induction rs as [|r0 rs IH]; intros t.
  - cbn. rewrite <- (list_fmap_id t) at 1. apply list_fmap_ext.
    intros i r _. unfold committed. destruct (p !! col_id r); [|reflexivity].
    rewrite fmap_nil.
    rewrite (bool_decide_eq_false_2 (col_id r ∈ [])) by apply not_elem_of_nil.
    reflexivity.
  - rewrite staged_updates_cons, filter_app, foldl_app.
    destruct (p !! col_id r0) as [l0|] eqn:El; cbn [from_option].
    + rewrite filter_cons, filter_nil.
      case_decide as Hd; unfold fails in Hd; cbn [fst] in Hd.
      * cbn [foldl]. rewrite IH. unfold apply_update, update_label. cbn [fst snd].
        rewrite <- list_fmap_compose. apply list_fmap_ext. intros i r _.
        cbn. by apply committed_update.
      * cbn [foldl]. rewrite IH. apply list_fmap_ext. intros i r _.
        symmetry. apply committed_skip. right.
        by destruct (update_fails f (PInt (col_id r0))).
    + rewrite filter_nil. cbn [foldl]. rewrite IH. apply list_fmap_ext. intros i r _.
      symmetry. apply committed_skip. by left.
Qed.

Lemma committed_nil f p (t : list db_row) : committed f p [] <$> t = t.
Proof. by rewrite <- (foldl_apply_update f p [] t). Qed.

(** ** The export *)

Lemma bind_value_stored v :
  bind_value v
  = match cell_error v with
    | Some e => inl e
    | None => inr (stored v)
    end.
Proof.
  unfold cell_error, bind_value, check_string, stored.
  destruct v; try reflexivity. by destruct (has_illegal _).
Qed.

Lemma cell_error_writable v : cell_error v = None ↔ writable v = true.
Proof.
  unfold cell_error, bind_value, check_string, writable.
  destruct v; try done. by destruct (has_illegal _).
Qed.

Lemma set_cell_eq row column v ws :
  set_cell row column v ws
  = match cell_error v with
    | Some e => inl e
    | None => inr (put_cell row column (stored v) ws)
    end.
Proof. unfold set_cell. rewrite bind_value_stored. by destruct (cell_error v). Qed.

Lemma write_rows_eq segments n ws :
  write_rows segments n ws
  = match export_error segments with
    | Some e => inl e
    | None => inr (put_rows (stored_segment <$> segments) n ws)
    end.
Proof.
  revert n ws. induction segments as [|s rest IH]; intros n ws; [reflexivity|].
  cbn [write_rows export_error]. unfold segment_error.
  rewrite set_cell_eq.
  destruct (cell_error (seg_segment_name s)); cbn [mbind exn_bind]; [reflexivity|].
  rewrite set_cell_eq.
  destruct (cell_error (seg_url s)); cbn [mbind exn_bind]; [reflexivity|].
  rewrite set_cell_eq.
  destruct (cell_error (seg_label s)); cbn [mbind exn_bind]; [reflexivity|].
  rewrite IH. reflexivity.
Qed.

Lemma fill_sheet_header segments :
  fill_sheet segments {| title := "Sheet"; cells := ∅; column_widths := ∅ |}
  = write_rows segments 2 header_sheet.
Proof. reflexivity. Qed.

Lemma build_workbook_eq segments :
  build_workbook segments
  = match export_error segments with
    | Some e => inl e
    | None => inr [results_sheet segments]
    end.
Proof.
  unfold build_workbook, Workbook. rewrite fill_sheet_header, write_rows_eq.
  by destruct (export_error segments).
Qed.

Lemma export_error_exportable segments :
  export_error segments = None ↔ Forall (λ s, exportable s = true) segments.
Proof.
  induction segments as [|s rest IH]; [by split; [constructor|]|].
  cbn [export_error]. unfold segment_error.
  rewrite Forall_cons, <- IH. unfold exportable.
  rewrite !andb_true_iff, <- !cell_error_writable.
  destruct (cell_error (seg_segment_name s)), (cell_error (seg_url s)),
    (cell_error (seg_label s)); intuition congruence.
Qed.

Lemma cell_error_raised v e :
  cell_error v = Some e → e = IllegalCharacterError ∨ e = ValueError.
Proof.
  unfold cell_error, bind_value, check_string.
  destruct v; try discriminate; [|intros [= <-]; auto..].
  destruct (has_illegal _); [intros [= <-]; auto|discriminate].
Qed.

Lemma export_error_raised segments e :
  export_error segments = Some e → e = IllegalCharacterError ∨ e = ValueError.
Proof.
  induction segments as [|s rest IH]; [discriminate|].
  cbn [export_error]. unfold segment_error.
  destruct (cell_error (seg_segment_name s)) eqn:E1.
  { intros [= <-]. by apply (cell_error_raised _ _ E1). }
  destruct (cell_error (seg_url s)) eqn:E2.
  { intros [= <-]. by apply (cell_error_raised _ _ E2). }
  destruct (cell_error (seg_label s)) eqn:E3; [|exact IH].
  intros [= <-]. by apply (cell_error_raised _ _ E3).
Qed.

Lemma put_rows_title segments n ws : title (put_rows segments n ws) = title ws.
Proof. revert n ws. induction segments as [|s rest IH]; intros; [done|]. cbn. by rewrite IH. Qed.

Lemma put_rows_widths segments n ws :
  column_widths (put_rows segments n ws) = column_widths ws.
Proof. revert n ws. induction segments as [|s rest IH]; intros; [done|]. cbn. by rewrite IH. Qed.

(** The three cells written for a segment at row [n]. *)
Lemma put_row_lookup s n ws row column :
  cells (put_cell n 3 (seg_label s) (put_cell n 2 (seg_url s)
           (put_cell n 1 (seg_segment_name s) ws))) !! (row, column)
  = if decide (row = n) then
      match row_cell s column with
      | Some v => Some v
      | None => cells ws !! (row, column)
      end
    else cells ws !! (row, column).
Proof.
  cbn [cells put_cell]. case_decide as E.
  - subst row.
    destruct column as [|[|[|[|c]]]]; cbn [row_cell];
      repeat (rewrite lookup_insert_eq || rewrite lookup_insert_ne by (intros [=]));
      reflexivity.
  - rewrite !lookup_insert_ne by (intros [=]; done). reflexivity.
Qed.

Lemma put_rows_lookup segments n ws row column :
  cells (put_rows segments n ws) !! (row, column)
  = match (if decide (n ≤ row)%nat
           then segments !! (row - n)%nat ≫= λ s, row_cell s column
           else None) with
    | Some v => Some v
    | None => cells ws !! (row, column)
    end.
Proof.
  revert n ws. induction segments as [|s rest IH]; intros n ws.
  - cbn [put_rows]. case_decide; reflexivity.
  - cbn [put_rows]. rewrite IH, put_row_lookup.
    destruct (decide (row = n)) as [->|Hne].
    + rewrite decide_False by lia. rewrite decide_True by lia.
      rewrite Nat.sub_diag. reflexivity.
    + destruct (decide (S n ≤ row)%nat) as [Hle|Hlt].
      * rewrite decide_True by lia.
        replace (row - n)%nat with (S (row - S n)) by lia. reflexivity.
      * rewrite decide_False by lia. reflexivity.
Qed.

Lemma results_sheet_cells segments row column :
  cells (results_sheet segments) !! (row, column) = expected_cell segments row column.
Proof.
  unfold results_sheet. rewrite put_rows_lookup. unfold expected_cell.
  destruct row as [|[|i]].
  - rewrite decide_False by lia. cbn [cells header_sheet].
    rewrite !lookup_insert_ne by (intros [=]). apply lookup_empty.
  - rewrite decide_False by lia. cbn [cells header_sheet].
    destruct column as [|[|[|[|c]]]]; cbn [row_cell header seg_segment_name seg_url seg_label];
      repeat (rewrite lookup_insert_eq || rewrite lookup_insert_ne by (intros [=]));
      try apply lookup_empty; reflexivity.
  - rewrite decide_True by lia.
    replace (S (S i) - 2)%nat with i by lia.
    rewrite list_lookup_fmap.
    destruct (segments !! i) as [s|]; cbn.
    + destruct (row_cell (stored_segment s) column) eqn:E; [reflexivity|].
      rewrite !lookup_insert_ne by (intros [=]). apply lookup_empty.
    + rewrite !lookup_insert_ne by (intros [=]). apply lookup_empty.
Qed.

(** A string that is not longer than 32767 characters is stored whole. *)
Lemma prefix_short n s : (N.of_nat (String.length s) ≤ n)%N → prefix n s = s.
Proof.
  revert n. induction s as [|c s IH]; intros n H; [reflexivity|].
  cbn [prefix]. cbn [String.length] in H.
  destruct n as [|p]; [lia|]. f_equal. apply IH. lia.
Qed.

Lemma prefix_length n s : (N.of_nat (String.length (prefix n s)) ≤ n)%N.
Proof.
  revert n. induction s as [|c s IH]; intros n; cbn [prefix String.length]; [lia|].
  destruct n as [|p]; cbn [String.length]; [lia|].
  specialize (IH (N.pred (N.pos p))). lia.
Qed.

(** ** Commit as a whole *)

(** [api_commit], step by step: the updates, then the cells, then the
    file, then the clearing; an exception of the cells or of the file
    leaves the handler with the updates done and nothing else. *)
Lemma api_commit_eq f w :
  api_commit f w =
  match export_error (loaded_segments f w) with
  | Some e => (Unhandled e, after_updates f w)
  | None =>
      if save_fails f then (Unhandled OSError, after_updates f w)
      else
        (Response 200 ok_true,
         set_pending ∅
           (set_xlsx [results_sheet (loaded_segments f w)] (after_updates f w)))
  end.
Proof.
  assert ((load_segments_from_db f w).1 = loaded_segments f w
          ∧ commit_loop f (load_segments_from_db f w).1 (load_segments_from_db f w).2
            = (None, after_updates f w)) as [Hseg Hloop].
  { rewrite load_segments_from_db_eq. unfold after_updates, loaded_segments, loaded_rows.
    destruct (select_fails f); cbn [fst snd].
    - split; [reflexivity|]. cbn. rewrite committed_nil. reflexivity.
    - split; [reflexivity|].
      rewrite commit_loop_overlay, foldl_do_update. cbn.
      rewrite foldl_apply_update, <- app_assoc. reflexivity. }
  unfold api_commit. destruct (load_segments_from_db f w) as [segments w1].
  cbn [fst snd] in *. rewrite Hloop, Hseg, build_workbook_eq.
  destruct (export_error (loaded_segments f w)); [reflexivity|].
  unfold save. by destruct (save_fails f).
Qed.

Lemma loaded_segments_eq f w : (load_segments_from_db f w).1 = loaded_segments f w.
Proof.
  rewrite load_segments_unlabeled. unfold loaded_segments, loaded_rows.
  by destruct (select_fails f).
Qed.

Lemma api_commit_after_updates f w :
  db (api_commit f w).2 = db (after_updates f w) ∧
  requests (api_commit f w).2 = requests (after_updates f w) ∧
  stdout (api_commit f w).2 = stdout (after_updates f w).
Proof.
  rewrite api_commit_eq.
  destruct (export_error (loaded_segments f w)); [done|].
  by destruct (save_fails f).
Qed.

Lemma api_commit_db f w :
  db (api_commit f w).2 = committed f (pending_labels w) (loaded_rows f w) <$> db w.
Proof. by rewrite (proj1 (api_commit_after_updates f w)). Qed.

Lemma api_commit_answer f w :
  (api_commit f w).1
  = match export_error (loaded_segments f w) with
    | Some e => Unhandled e
    | None => if save_fails f then Unhandled OSError else Response 200 ok_true
    end.
Proof.
  rewrite api_commit_eq.
  destruct (export_error (loaded_segments f w)); [done|].
  by destruct (save_fails f).
Qed.

(** The staging dictionary is emptied exactly when the commit answers. *)
Lemma api_commit_pending_cases f w :
  (api_commit f w).1 = Response 200 ok_true ∧
    pending_labels (api_commit f w).2 = ∅ ∧
    xlsx (api_commit f w).2 = Some [results_sheet (loaded_segments f w)] ∨
  (api_commit f w).1 ≠ Response 200 ok_true ∧
    pending_labels (api_commit f w).2 = pending_labels w ∧
    xlsx (api_commit f w).2 = xlsx w.
Proof.
  rewrite api_commit_eq.
  destruct (export_error (loaded_segments f w)); [by right|].
  destruct (save_fails f); [by right|by left].
Qed.

Lemma committed_label_after f p rs row :
  identity (committed f p rs row) = identity row ∧
  col_label (committed f p rs row) = label_after f p rs row.
Proof.
  unfold committed, label_after, identity.
  destruct (p !! col_id row); [|done]. by destruct (_ && _).
Qed.



(** C5 fails as stated: when writing the workbook raises, the exception
    leaves [api_commit] before [pending_labels.clear()] is reached, and
    the staged label is still there. *)
Lemma commit_keeps_pending_when_save_raises :
  (api_commit (not_saving false (λ _, false)) (fresh [row7] {[ 7 := "cat" ]})).1
  = Unhandled OSError ∧
  pending_labels
    (api_commit (not_saving false (λ _, false)) (fresh [row7] {[ 7 := "cat" ]})).2
  = {[ 7 := "cat" ]} ∧
  pending_labels
    (api_commit (not_saving false (λ _, false)) (fresh [row7] {[ 7 := "cat" ]})).2
  ≠ ∅.
Proof.
  split; [reflexivity|]. split; [reflexivity|].
  intros H. apply (f_equal (λ m : gmap Z string, m !! 7)) in H. discriminate H.
Qed.

(** C5, amended.  A commit whose export raises nothing, neither a
    [ws.cell] refusing a value nor [wb.save], answers [{ok: true}] and
    leaves [pending_labels] empty, whatever it held, whichever updates
    failed and whether or not the select failed.  When a [ws.cell]
    refuses a value (IllegalCharacterError for a control character in a
    name, url or label, ValueError for a list or dictionary) or
    [wb.save] raises (OSError), that exception escapes and
    [pending_labels] is left as it was.  A [ws.cell] raises exactly when
    some loaded segment is not exportable; a staged label with a control
    character is enough, and its update has then already been sent. *)
Theorem commit_clears_pending f w :
  (export_error (loaded_segments f w) = None → save_fails f = false →
   (api_commit f w).1 = Response 200 ok_true ∧
   pending_labels (api_commit f w).2 = ∅) ∧
  (∀ e, export_error (loaded_segments f w) = Some e →
        (e = IllegalCharacterError ∨ e = ValueError) ∧
        (api_commit f w).1 = Unhandled e ∧
        pending_labels (api_commit f w).2 = pending_labels w) ∧
  (export_error (loaded_segments f w) = None → save_fails f = true →
   (api_commit f w).1 = Unhandled OSError ∧
   pending_labels (api_commit f w).2 = pending_labels w) ∧
  (export_error (loaded_segments f w) = None ↔
   Forall (λ s, exportable s = true) (loaded_segments f w)) ∧
  ((api_commit no_faults (fresh [row7] {[ 7 := ctrl_label ]})).1
   = Unhandled IllegalCharacterError ∧
   pending_labels (api_commit no_faults (fresh [row7] {[ 7 := ctrl_label ]})).2
   = {[ 7 := ctrl_label ]} ∧
   (col_label <$> db (api_commit no_faults (fresh [row7] {[ 7 := ctrl_label ]})).2)
   = [Some ctrl_label]).
Proof.
  split; [|split; [|split; [|split]]].
  - intros He Hs. rewrite api_commit_eq, He, Hs. done.
  - intros e He. split; [by apply (export_error_raised _ _ He)|].
    rewrite api_commit_eq, He. done.
  - intros He Hs. rewrite api_commit_eq, He, Hs. done.
  - apply export_error_exportable.
  - repeat split.
Qed.

Lemma commit_clears_pending_witness :
  (api_commit (saving false fails_on_7)
     (fresh [row7; row9] {[ 7 := "cat"; 9 := "dog" ]})).1 = Response 200 ok_true ∧
  pending_labels
    (api_commit (saving false fails_on_7)
       (fresh [row7; row9] {[ 7 := "cat"; 9 := "dog" ]})).2 = ∅.
Proof.
  destruct (commit_clears_pending (saving false fails_on_7)
              (fresh [row7; row9] {[ 7 := "cat"; 9 := "dog" ]})) as (H & _).
  apply H; reflexivity.
Defined.

(** C8 fails as stated: for a segment whose label holds a control
    character the third [ws.cell] of its row raises, and no workbook
    reaches [wb.save]. *)
Lemma export_refuses_control_character :
  build_workbook [overlay {[ 7 := ctrl_label ]} row7] = inl IllegalCharacterError.
Proof. reflexivity. Qed.

(** C8, amended.  When openpyxl accepts every name, url and label of the
    segments (no list or dictionary, no control character other than
    tab, line feed and carriage return among the first 32767 characters
    of a string), the workbook handed to [wb.save] has one sheet, titled
    [results], with column widths 40, 80 and 15; row 1 holds
    [segment_name], [url], [label] in columns 1 to 3; row [i + 2] holds
    the name, url and label of the i-th segment, a string cut to its
    first 32767 characters and so whole when it is not longer; no other
    cell exists; and a write that does not raise replaces the file,
    whatever it was.  Otherwise a [ws.cell] raises
    (IllegalCharacterError or ValueError) and there is no workbook.  For
    no segments the sheet holds the header alone. *)
Theorem export_writes_results_sheet segments :
  (Forall (λ s, exportable s = true) segments →
   ∃ ws,
     build_workbook segments = inr [ws] ∧
     title ws = "results" ∧
     column_widths ws = {[ "A" := 40; "B" := 80; "C" := 15 ]} ∧
     (cells ws !! (1, 1)%nat = Some (PStr "segment_name") ∧
      cells ws !! (1, 2)%nat = Some (PStr "url") ∧
      cells ws !! (1, 3)%nat = Some (PStr "label")) ∧
     (∀ i s, segments !! i = Some s →
        cells ws !! (i + 2, 1)%nat = Some (stored (seg_segment_name s)) ∧
        cells ws !! (i + 2, 2)%nat = Some (stored (seg_url s)) ∧
        cells ws !! (i + 2, 3)%nat = Some (stored (seg_label s))) ∧
     (∀ row column, cells ws !! (row, column) = expected_cell segments row column) ∧
     (∀ row column v, cells ws !! (row, column) = Some v →
        (1 ≤ row < length segments + 2)%nat ∧ (1 ≤ column ≤ 3)%nat) ∧
     (∀ sf uf w,
        save (saving sf uf) [ws] w = (None, set_xlsx [ws] w) ∧
        xlsx (save (saving sf uf) [ws] w).2 = Some [ws])) ∧
  (¬ Forall (λ s, exportable s = true) segments →
   ∃ e, build_workbook segments = inl e ∧
        (e = IllegalCharacterError ∨ e = ValueError)) ∧
  (∀ s, (N.of_nat (String.length s) ≤ 32767)%N → stored (PStr s) = PStr s) ∧
  (∀ v, stored v = v ∨ ∃ s, v = PStr s ∧ stored v = PStr (prefix 32767 s)) ∧
  build_workbook []
  = inr [ {| title := "results";
             cells := {[ (1, 1)%nat := PStr "segment_name"; (1, 2)%nat := PStr "url";
                         (1, 3)%nat := PStr "label" ]};
             column_widths := {[ "A" := 40; "B" := 80; "C" := 15 ]} |} ].
Proof.
  split; [|split; [|split; [|split; [|reflexivity]]]].
  - intros Hok%export_error_exportable.
    exists (results_sheet segments).
    split; [by rewrite build_workbook_eq, Hok|].
    pose proof (results_sheet_cells segments) as Hc.
    split; [apply put_rows_title|].
    split; [unfold results_sheet; rewrite put_rows_widths; reflexivity|].
    split; [rewrite !Hc; by repeat split|].
    split; [|split; [exact Hc|split]].
    + intros i s Hs. rewrite !Hc. replace (i + 2)%nat with (S (S i)) by lia.
      unfold expected_cell. rewrite Hs. by repeat split.
    + intros row column v. rewrite Hc. unfold expected_cell.
      destruct row as [|[|i]]; [discriminate| |].
      * destruct column as [|[|[|[|c]]]]; try discriminate; intros _; cbn; lia.
      * destruct (segments !! i) as [s|] eqn:Hs; [|discriminate].
        apply lookup_lt_Some in Hs.
        destruct column as [|[|[|[|c]]]]; try discriminate; intros _; lia.
    + intros sf uf w. split; reflexivity.
  - intros Hno. rewrite build_workbook_eq.
    destruct (export_error segments) as [e|] eqn:He.
    + exists e. split; [reflexivity|]. by apply (export_error_raised _ _ He).
    + destruct Hno. by apply export_error_exportable.
  - intros s Hs. unfold stored. by rewrite prefix_short.
  - intros v. destruct v; cbn; eauto.
Qed.

Lemma export_writes_results_sheet_witness :
  ∃ ws,
    build_workbook [overlay {[ 7 := "cat" ]} row7] = inr [ws] ∧
    cells ws !! (2, 1)%nat = Some (PStr "seg7") ∧
    cells ws !! (2, 2)%nat = Some (PStr "http://x/7.png") ∧
    cells ws !! (2, 3)%nat = Some (PStr "cat").
Proof.
  destruct (export_writes_results_sheet [overlay {[ 7 := "cat" ]} row7])
    as (H & _).
  destruct H as (ws & Hwb & _ & _ & _ & Hrow & _).
  { repeat constructor. }
  exists ws. split; [exact Hwb|].
  exact (Hrow 0%nat (overlay {[ 7 := "cat" ]} row7) eq_refl).
Defined.

Lemma loaded_label f w i row l :
  loaded_rows f w !! i = Some row → pending_labels w !! col_id row = Some l →
  ∃ s, loaded_segments f w !! i = Some s ∧ seg_label s = PStr l.
Proof.
  intros Hrow Hl. unfold loaded_segments. rewrite list_lookup_fmap, Hrow. cbn.
  eexists. split; [reflexivity|]. cbn. by rewrite Hl.
Qed.

(** C4.  When a commit answers, the file it has written is the workbook
    built from the segments loaded from the world the commit started in;
    when it does not answer, the file is the one before.  In the file
    the label of a loaded row with a staged label is the staged label
    (cut to 32767 characters), whether or not its update failed.  With
    rows 7 and 9 staged and the update of row 7 failing, row 7 keeps its
    NULL label in the table and the file shows [cat] for it; loading
    again after the commit would give another workbook. *)
Theorem commit_exports_loaded_segments f w :
  ((api_commit f w).1 = Response 200 ok_true →
   ∃ ws, build_workbook (load_segments_from_db f w).1 = inr [ws] ∧
         xlsx (api_commit f w).2 = Some [ws] ∧
         ∀ i row l, loaded_rows f w !! i = Some row →
                    pending_labels w !! col_id row = Some l →
                    cells ws !! (i + 2, 3)%nat = Some (PStr (prefix 32767 l))) ∧
  ((api_commit f w).1 ≠ Response 200 ok_true → xlsx (api_commit f w).2 = xlsx w) ∧
  (col_label <$> db (api_commit (saving false fails_on_7)
                       (fresh [row7; row9] {[ 7 := "cat"; 9 := "dog" ]})).2
   = [None; Some "dog"] ∧
   xlsx (api_commit (saving false fails_on_7)
           (fresh [row7; row9] {[ 7 := "cat"; 9 := "dog" ]})).2
   = Some [results_sheet
             [overlay {[ 7 := "cat" ]} row7; overlay {[ 9 := "dog" ]} row9]] ∧
   build_workbook
     (load_segments_from_db no_faults
        (api_commit (saving false fails_on_7)
           (fresh [row7; row9] {[ 7 := "cat"; 9 := "dog" ]})).2).1
   = inr [results_sheet [overlay ∅ row7]] ∧
   cells (results_sheet [overlay {[ 7 := "cat" ]} row7; overlay {[ 9 := "dog" ]} row9])
     !! (2, 3)%nat = Some (PStr "cat") ∧
   cells (results_sheet [overlay ∅ row7]) !! (2, 3)%nat = Some (PStr "")).
Proof.
  split; [|split].
  - intros Hok.
    destruct (api_commit_pending_cases f w) as [(_ & _ & Hx)|(Hne & _)];
      [|by destruct Hne].
    rewrite api_commit_answer in Hok.
    destruct (export_error (loaded_segments f w)) eqn:He; [discriminate|].
    exists (results_sheet (loaded_segments f w)).
    split; [by rewrite loaded_segments_eq, build_workbook_eq, He|].
    split; [exact Hx|].
    intros i row l Hrow Hl.
    destruct (loaded_label f w i row l Hrow Hl) as (s & Hs & Hlab).
    rewrite results_sheet_cells. replace (i + 2)%nat with (S (S i)) by lia.
    unfold expected_cell. rewrite Hs. cbn. by rewrite Hlab.
  - intros Hne.
    by destruct (api_commit_pending_cases f w) as [(Hok & _)|(_ & _ & Hx)].
  - repeat split.
Qed.

Lemma commit_exports_loaded_segments_witness :
  ∃ ws,
    xlsx (api_commit (saving false fails_on_7)
            (fresh [row7; row9] {[ 7 := "cat"; 9 := "dog" ]})).2 = Some [ws] ∧
    cells ws !! (2, 3)%nat = Some (PStr "cat").
Proof.
  destruct (commit_exports_loaded_segments (saving false fails_on_7)
              (fresh [row7; row9] {[ 7 := "cat"; 9 := "dog" ]})) as (H & _).
  destruct (H eq_refl) as (ws & _ & Hx & Hcell).
  exists ws. split; [exact Hx|].
  exact (Hcell 0%nat row7 "cat" eq_refl eq_refl).
Defined.
(** ** What the loader returns, and the documented scenarios *)

(** X1.  When the select goes through, the loader returns the rows whose
    stored label is NULL, in table order, each presented with the staged
    label when its id has one and with the empty string otherwise; a row
    with any other stored label, the empty string included, is not
    returned, staged or not. *)
Theorem load_returns_null_label_rows uf sv w :
  (load_segments_from_db {| select_fails := false; update_fails := uf; save_fails := sv |} w).1
  = overlay (pending_labels w) <$> unlabeled (db w) ∧
  (∀ s, s ∈ (load_segments_from_db
               {| select_fails := false; update_fails := uf; save_fails := sv |} w).1 ↔
        ∃ r, r ∈ db w ∧ col_label r = None ∧
             s = {| seg_id := PInt (col_id r);
                    seg_segment_name := cell (col_segment_name r);
                    seg_url := cell (col_url r);
                    seg_label := from_option PStr (PStr "")
                                   (pending_labels w !! col_id r) |}).
Proof.
  rewrite load_segments_from_db_eq. cbn [select_fails fst].
  split; [reflexivity|]. intros s.
  rewrite list_elem_of_fmap. unfold unlabeled. split.
  - intros (r & -> & [Hl Hr]%list_elem_of_filter).
    exists r. split; [exact Hr|]. split; [exact Hl|].
    unfold overlay. by rewrite Hl.
  - intros (r & Hr & Hl & ->). exists r. split.
    + unfold overlay. by rewrite Hl.
    + apply list_elem_of_filter. by split.
Qed.

(** The round trip on a table with the single row 7: listing shows
    it with the empty label; after staging [cat] listing shows [cat];
    committing answers [{ok: true}], sets the row's label to [cat] in the
    table, empties [pending_labels] and writes a file whose single data
    row is (seg7, http://x/7.png, cat). *)
Theorem round_trip_row7 :
  (load_segments_from_db no_faults (fresh [row7] ∅)).1
  = [ {| seg_id := PInt 7; seg_segment_name := PStr "seg7";
         seg_url := PStr "http://x/7.png"; seg_label := PStr "" |} ] ∧
  api_pending sample_repr (stage_request (PInt 7) (PStr "cat")) (fresh [row7] ∅)
  = (Response 200 ok_true, fresh [row7] {[ 7 := "cat" ]}) ∧
  (load_segments_from_db no_faults (fresh [row7] {[ 7 := "cat" ]})).1
  = [ {| seg_id := PInt 7; seg_segment_name := PStr "seg7";
         seg_url := PStr "http://x/7.png"; seg_label := PStr "cat" |} ] ∧
  api_commit no_faults (fresh [row7] {[ 7 := "cat" ]})
  = (Response 200 ok_true,
     {| db := [set_label "cat" row7];
        requests := [Select; Update (PInt 7) "cat"];
        pending_labels := ∅;
        xlsx := Some [results_sheet
                        [ {| seg_id := PInt 7; seg_segment_name := PStr "seg7";
                             seg_url := PStr "http://x/7.png"; seg_label := PStr "cat" |} ]];
        stdout := [] |}).
Proof. repeat split. Qed.

(** The partial failure: rows 7 and 9 both staged, the update of
    row 7 failing.  The commit still answers [{ok: true}], row 9 is
    updated and row 7 is not, the failure is printed, [pending_labels]
    is empty afterwards, and the file shows the staged label of row 7. *)
Theorem partial_failure_rows_7_9 :
  api_commit (saving false fails_on_7) (fresh [row7; row9] {[ 7 := "cat"; 9 := "dog" ]})
  = (Response 200 ok_true,
     {| db := [row7; set_label "dog" row9];
        requests := [Select; Update (PInt 7) "cat"; Update (PInt 9) "dog"];
        pending_labels := ∅;
        xlsx := Some [results_sheet
                        [ {| seg_id := PInt 7; seg_segment_name := PStr "seg7";
                             seg_url := PStr "http://x/7.png"; seg_label := PStr "cat" |};
                          {| seg_id := PInt 9; seg_segment_name := PStr "seg9";
                             seg_url := PStr "http://x/9.png"; seg_label := PStr "dog" |} ]];
        stdout := [UpdateFailed (PInt 7) StoreError] |}).
Proof. reflexivity. Qed.

(** ** Frames *)

(** X2.  Listing is read-only: [api_segments] leaves the table, the file
    and the staging dictionary as they were; it sends exactly one select
    and prints one line exactly when the select raised. *)
Theorem listing_is_read_only f w :
  db (api_segments f w).2 = db w ∧
  xlsx (api_segments f w).2 = xlsx w ∧
  pending_labels (api_segments f w).2 = pending_labels w ∧
  requests (api_segments f w).2 = requests w ++ [Select] ∧
  stdout (api_segments f w).2
  = stdout w ++ (if select_fails f then [LoadFailed StoreError] else []).
Proof.
  assert ((api_segments f w).2 = (load_segments_from_db f w).2) as ->.
  { unfold api_segments. by destruct (load_segments_from_db f w). }
  rewrite load_segments_world.
  destruct (select_fails f); cbn; rewrite ?app_nil_r; auto.
Qed.

Lemma api_pending_cases r body w :
  (api_pending r body w).2 = w ∧ (api_pending r body w).1 ≠ Response 200 ok_true ∨
  ∃ k l, parsed_id body = inr k ∧ parsed_label r body = inr l ∧ 0 < k ∧
         api_pending r body w
         = (Response 200 ok_true, set_pending (<[k := l]> (pending_labels w)) w).
Proof.
  unfold api_pending.
  destruct (parsed_id body) as [e|k]; [left; split; [done|discriminate]|].
  destruct (parsed_label r body) as [e|l]; [left; split; [done|discriminate]|].
  destruct (k <=? 0) eqn:E.
  - left. split; [done|discriminate].
  - right. apply Z.leb_gt in E. eauto 10.
Qed.

(** X3.  Staging changes state only when it answers 200: on a 400 and on
    an escaping exception the world is the one before.  It never touches
    the table, the store, the file or standard output, and on a 200 the
    staging dictionary changes at one positive key and nowhere else. *)
Theorem api_pending_frame r body w :
  (db (api_pending r body w).2 = db w ∧
   requests (api_pending r body w).2 = requests w ∧
   xlsx (api_pending r body w).2 = xlsx w ∧
   stdout (api_pending r body w).2 = stdout w) ∧
  ((api_pending r body w).1 ≠ Response 200 ok_true → (api_pending r body w).2 = w) ∧
  ((api_pending r body w).1 = Response 200 ok_true →
   ∃ k l, 0 < k ∧ pending_labels (api_pending r body w).2 !! k = Some l ∧
          ∀ j, j ≠ k →
               pending_labels (api_pending r body w).2 !! j = pending_labels w !! j).
Proof.
  destruct (api_pending_cases r body w) as [[Hw Hne]|(k & l & _ & _ & Hk & E)].
  - rewrite Hw. split; [done|]. split; [done|]. intros H. by destruct Hne.
  - rewrite E. cbn. split; [done|]. split; [intros H; by destruct H|].
    intros _. exists k, l. split; [done|]. split; [apply lookup_insert_eq|].
    intros j Hj. by apply lookup_insert_ne.
Qed.

(** ** Invariants of the server *)

Lemma api_segments_world f w : (api_segments f w).2 = (load_segments_from_db f w).2.
Proof. unfold api_segments. by destruct (load_segments_from_db f w). Qed.

Lemma api_segments_pending f w :
  pending_labels (api_segments f w).2 = pending_labels w.
Proof.
  rewrite api_segments_world, load_segments_world. by destruct (select_fails f).
Qed.

Lemma api_segments_db f w : db (api_segments f w).2 = db w.
Proof.
  rewrite api_segments_world, load_segments_world. by destruct (select_fails f).
Qed.

Lemma committed_identity f p rs r : identity (committed f p rs r) = identity r.
Proof.
  unfold committed. destruct (p !! col_id r); [|done].
  by destruct (_ && _).
Qed.

Lemma serve_positive_keys r f c w :
  positive_keys (pending_labels w) → positive_keys (pending_labels (serve r f c w).2).
Proof.
  intros H. destruct c as [|body|]; cbn [serve].
  - by rewrite api_segments_pending.
  - destruct (api_pending_cases r body w) as [[-> _]|(k & l & _ & _ & Hk & ->)]; [done|].
    cbn. by apply map_Forall_insert_2.
  - destruct (api_commit_pending_cases f w) as [(_ & -> & _)|(_ & -> & _)]; [|done].
    apply map_Forall_empty.
Qed.

Lemma serve_identity r f c w : identity <$> db (serve r f c w).2 = identity <$> db w.
Proof.
  destruct c as [|body|]; cbn [serve].
  - by rewrite api_segments_db.
  - by destruct (api_pending_cases r body w) as [[-> _]|(k & l & _ & _ & _ & ->)].
  - rewrite api_commit_db, <- list_fmap_compose.
    apply list_fmap_ext. intros i row _. apply committed_identity.
Qed.

Lemma serve_all_cons r f c cs w :
  (serve_all r ((f, c) :: cs) w).2 = (serve_all r cs (serve r f c w).2).2.
Proof.
  cbn [serve_all]. destruct (serve r f c w) as [o w1]. cbn [snd].
  by destruct (serve_all r cs w1).
Qed.

(** X4.  Every key of [pending_labels] is a positive integer, and stays
    one through any sequence of requests, whatever their bodies and
    whatever fails. *)
Theorem serve_all_positive_keys r cs w :
  positive_keys (pending_labels w) →
  positive_keys (pending_labels (serve_all r cs w).2).
Proof.
  revert w. induction cs as [|[f c] cs IH]; intros w H; [exact H|].
  rewrite serve_all_cons. apply IH. by apply serve_positive_keys.
Qed.

Lemma serve_all_positive_keys_witness :
  positive_keys
    (pending_labels
       (serve_all sample_repr
          [ (no_faults, PostPending (stage_request (PInt 7) (PStr "cat")));
            (no_faults, PostPending (stage_request (PInt (-3)) (PStr "dog")));
            (not_saving false fails_on_7, PostCommit);
            (no_faults, GetSegments) ]
          (fresh [row7] ∅)).2).
Proof. apply serve_all_positive_keys. apply map_Forall_empty. Defined.

(** X5.  No sequence of requests adds, removes or reorders rows of the
    table, or changes the id, name or url of a row: only labels are ever
    written. *)
Theorem serve_all_keeps_rows r cs w :
  identity <$> db (serve_all r cs w).2 = identity <$> db w.
Proof.
  revert w. induction cs as [|[f c] cs IH]; intros w; [reflexivity|].
  rewrite serve_all_cons, IH. apply serve_identity.
Qed.

(** ** More on staging *)

(** X6.  Stagings of different ids commute: the world after the two
    requests does not depend on their order. *)
Theorem staging_commutes r b1 b2 w k1 k2 :
  parsed_id b1 = inr k1 → parsed_id b2 = inr k2 → k1 ≠ k2 →
  (api_pending r b2 (api_pending r b1 w).2).2
  = (api_pending r b1 (api_pending r b2 w).2).2.
Proof.
  intros H1 H2 Hne.
  destruct (parsed_label_total r b1 k1 H1) as [l1 Hl1].
  destruct (parsed_label_total r b2 k2 H2) as [l2 Hl2].
  unfold api_pending. rewrite H1, H2, Hl1, Hl2.
  destruct (k1 <=? 0), (k2 <=? 0); cbn; rewrite ?H1, ?H2, ?Hl1, ?Hl2; try reflexivity.
  unfold set_pending; cbn. by rewrite insert_insert_ne.
Qed.

Lemma staging_commutes_witness :
  (api_pending sample_repr (stage_request (PInt 9) (PStr "dog"))
     (api_pending sample_repr (stage_request (PInt 7) (PStr "cat")) (fresh [] ∅)).2).2
  = (api_pending sample_repr (stage_request (PInt 7) (PStr "cat"))
       (api_pending sample_repr (stage_request (PInt 9) (PStr "dog")) (fresh [] ∅)).2).2.
Proof.
  apply (staging_commutes sample_repr _ _ _ 7 9); [reflexivity|reflexivity|lia].
Defined.

(** X7.  The shapes of a request body.  A document that is falsy in
    Python ([null], [false], [0], [0.0], the empty string, list or
    object) is replaced by [{}] and answered with the 400 response; a
    truthy document that is not an object (a number, a string, a list,
    [true]) makes [data.get] raise AttributeError, which escapes.  In
    both cases nothing is staged. *)
Theorem api_pending_body_shapes r w :
  (∀ v, truthy v = false →
        api_pending r (Some v) w = (Response 400 invalid_segment_id, w)) ∧
  (∀ v, truthy v = true → (∀ d, v ≠ PDict d) →
        api_pending r (Some v) w = (Unhandled AttributeError, w)).
Proof.
  split; intros v Hv.
  - unfold api_pending, parsed_id, parsed_label, request_data, py_or; cbn.
    rewrite Hv. reflexivity.
  - intros Hd. apply api_pending_raises.
    unfold parsed_id, request_data, py_or; cbn. rewrite Hv.
    destruct v; try reflexivity. by destruct (Hd d).
Qed.

Lemma api_pending_body_shapes_witness :
  api_pending sample_repr (Some (PList [])) (fresh [] ∅)
  = (Response 400 invalid_segment_id, fresh [] ∅) ∧
  api_pending sample_repr (Some (PList [PInt 7])) (fresh [] ∅)
  = (Unhandled AttributeError, fresh [] ∅).
Proof.
  destruct (api_pending_body_shapes sample_repr (fresh [] ∅)) as [Hf Ht].
  split; [apply Hf; reflexivity | apply Ht; [reflexivity | discriminate]].
Defined.

(** ** More on commit *)

Lemma staged_updates_ids p rs u :
  u ∈ staged_updates p rs →
  p !! u.1 = Some u.2 ∧ ∃ row, row ∈ rs ∧ col_id row = u.1.
Proof.
  unfold staged_updates. intros (row & Hrow & Hu)%list_elem_of_omap.
  destruct (p !! col_id row) as [l|] eqn:E; [|discriminate].
  injection Hu as <-. cbn. eauto.
Qed.

Lemma loaded_rows_unlabeled f w row :
  row ∈ loaded_rows f w → row ∈ db w ∧ col_label row = None.
Proof.
  unfold loaded_rows, unlabeled. destruct (select_fails f).
  - by intros ?%elem_of_nil.
  - intros [? ?]%list_elem_of_filter. done.
Qed.

Lemma committed_not_loaded f p rs row :
  col_id row ∉ col_id <$> rs → committed f p rs row = row.
Proof.
  intros H. unfold committed. destruct (p !! col_id row); [|done].
  by rewrite bool_decide_eq_false_2.
Qed.

Lemma staged_updates_empty rs : staged_updates ∅ rs = [].
Proof.
  induction rs as [|row rs IH]; [reflexivity|].
  rewrite staged_updates_cons, lookup_empty. exact IH.
Qed.

Lemma committed_empty f rs (t : list db_row) : committed f ∅ rs <$> t = t.
Proof.
  rewrite <- (list_fmap_id t) at 2. apply list_fmap_ext. intros i row _.
  unfold committed. by rewrite lookup_empty.
Qed.

Lemma committed_label f p rs row :
  col_label row = None → col_id row ∈ col_id <$> rs →
  committed f p rs row
  = if updated (update_fails f) p row
    then set_label (default "" (p !! col_id row)) row else row.
Proof.
  intros Hnull Hin. unfold committed, updated.
  rewrite (bool_decide_eq_true_2 _ Hin).
  destruct (p !! col_id row) as [l|]; cbn.
  - by destruct (update_fails f (PInt (col_id row))).
  - reflexivity.
Qed.

Lemma committed_labelled f p rs row :
  col_label row ≠ None → col_label (committed f p rs row) ≠ None.
Proof.
  intros H. unfold committed. destruct (p !! col_id row); [|done].
  by destruct (_ && _).
Qed.

Lemma unlabeled_committed f p rs t :
  (∀ row, row ∈ t → col_label row = None → col_id row ∈ col_id <$> rs) →
  unlabeled (committed f p rs <$> t)
  = filter (λ row, updated (update_fails f) p row = false) (unlabeled t).
Proof.
  unfold unlabeled. induction t as [|row t IH]; intros H; [reflexivity|].
  assert (∀ row, row ∈ t → col_label row = None → col_id row ∈ col_id <$> rs) as Ht.
  { intros row' Hin. apply H. by apply list_elem_of_further. }
  specialize (IH Ht).
  rewrite fmap_cons, (filter_cons _ row t), (filter_cons _ (committed f p rs row)).
  destruct (decide (col_label row = None)) as [Hnull|Hlab].
  - rewrite (committed_label f p rs row Hnull (H row (list_elem_of_here _ _) Hnull)).
    rewrite filter_cons.
    destruct (updated (update_fails f) p row) eqn:Eu.
    + rewrite decide_False by (cbn; discriminate).
      rewrite decide_False by discriminate. exact IH.
    + rewrite decide_True by done. rewrite decide_True by done. by rewrite IH.
  - rewrite decide_False by (by apply committed_labelled). exact IH.
Qed.

(** ** The loader's loop on any reply *)

Lemma load_rows_acc p rows acc :
  load_rows p rows acc
  = (acc ++ (load_rows p rows []).1, (load_rows p rows []).2).
Proof.
  revert acc. induction rows as [|row rows IH]; intros acc; cbn [load_rows].
  - by rewrite app_nil_r.
  - destruct (load_row p row) as [e|s]; [by rewrite app_nil_r|].
    rewrite (IH (acc ++ [s])), (IH ([] ++ [s])). cbn. by rewrite <- app_assoc.
Qed.

Lemma load_row_hashable p row :
  hashable (dict_get row "id") = true →
  ∃ s, load_row p row = inr s ∧ seg_id s = dict_get row "id".
Proof.
  unfold hashable, load_row, lookup_val.
  destruct (int_key (dict_get row "id")) as [e|[k|]]; [discriminate| |]; eauto.
Qed.

Lemma load_row_unhashable p row :
  hashable (dict_get row "id") = false → load_row p row = inl TypeError.
Proof.
  unfold hashable, load_row, lookup_val, int_key.
  destruct (dict_get row "id") as [| | |[]| | |]; try discriminate; try reflexivity.
  by destruct (_ =? _).
Qed.

Lemma load_rows_hashable p rows :
  Forall (λ row, hashable (dict_get row "id") = true) rows →
  (load_rows p rows []).2 = None ∧
  length (load_rows p rows []).1 = length rows.
Proof.
  induction 1 as [|row rows Hrow _ [IH1 IH2]]; [done|].
  cbn [load_rows]. destruct (load_row_hashable p row Hrow) as (s & -> & _).
  rewrite load_rows_acc. cbn [fst snd]. split; [exact IH1|].
  rewrite length_app, IH2. reflexivity.
Qed.

(** X13.  The loop of the loader on any reply of the store.  When a row
    carries an unhashable id (a list or an object), the membership test
    raises TypeError there; the [except] clause catches it and the
    function returns the segments of the rows before that row, one per
    row, dropping that row and every row after it. *)
Theorem load_rows_keeps_prefix p pre bad post :
  Forall (λ row, hashable (dict_get row "id") = true) pre →
  hashable (dict_get bad "id") = false →
  load_rows p (pre ++ bad :: post) []
  = ((load_rows p pre []).1, Some TypeError) ∧
  (load_rows p pre []).2 = None ∧
  length (load_rows p pre []).1 = length pre.
Proof.
  intros Hpre Hbad. split; [|by apply load_rows_hashable].
  generalize (@nil segment) as acc.
  induction Hpre as [|row pre Hrow _ IH]; intros acc; cbn [load_rows app].
  - rewrite (load_row_unhashable p bad Hbad). reflexivity.
  - destruct (load_row_hashable p row Hrow) as (s & -> & _). apply IH.
Qed.

Lemma load_rows_keeps_prefix_witness :
  load_rows ∅ [to_dict row7; {[ "id" := PList [] ]}; to_dict row9] []
  = ((load_rows ∅ [to_dict row7] []).1, Some TypeError) ∧
  (load_rows ∅ [to_dict row7] []).2 = None ∧
  length (load_rows ∅ [to_dict row7] []).1 = length [to_dict row7].
Proof.
  apply (load_rows_keeps_prefix ∅ [to_dict row7] {[ "id" := PList [] ]} [to_dict row9]).
  - repeat constructor.
  - reflexivity.
Defined.

Lemma staged_updates_failed uf p rs :
  staged_updates p (filter (λ row, updated uf p row = false) rs)
  = staged_updates p (filter (λ row, uf (PInt (col_id row)) = true) rs).
Proof.
  induction rs as [|row rs IH]; [reflexivity|].
  rewrite !filter_cons.
  destruct (decide (updated uf p row = false)) as [Hu|Hu],
           (decide (uf (PInt (col_id row)) = true)) as [Hf|Hf];
    rewrite ?staged_updates_cons, ?IH; try reflexivity.
  - unfold updated in Hu.
    destruct (p !! col_id row); [|reflexivity].
    destruct (uf (PInt (col_id row))); cbn in Hu; congruence.
  - unfold updated in Hu. rewrite Hf, andb_false_r in Hu. done.
Qed.

(** ** Staging, then listing *)

Lemma overlay_insert p k label row :
  overlay (<[k := label]> p) row = restaged k label (overlay p row).
Proof.
  unfold restaged, overlay; cbn.
  destruct (col_id row =? k) eqn:E.
  - apply Z.eqb_eq in E. subst k. by rewrite lookup_insert_eq.
  - apply Z.eqb_neq in E. by rewrite lookup_insert_ne.
Qed.

(** X15.  After a stage request that is answered 200 for id [k], the
    listing is the listing before with the label of the segments whose
    id is [k] replaced by the staged label: same segments, same order,
    every other segment as it was. *)
Theorem listing_after_staging r f body w k label :
  parsed_id body = inr k → parsed_label r body = inr label → 0 < k →
  (load_segments_from_db f (api_pending r body w).2).1
  = restaged k label <$> (load_segments_from_db f w).1.
Proof.
  intros Hk Hl Hpos. rewrite (api_pending_valid r body w k label Hk Hl Hpos).
  cbn [snd]. rewrite !load_segments_unlabeled. cbn [db pending_labels set_pending].
  destruct (select_fails f); [reflexivity|].
  rewrite <- list_fmap_compose. apply list_fmap_ext.
  intros i row _. apply overlay_insert.
Qed.

Lemma listing_after_staging_witness :
  (load_segments_from_db no_faults
     (api_pending sample_repr (stage_request (PInt 9) (PStr "dog"))
        (fresh [row7; row9] {[ 7 := "cat" ]})).2).1
  = restaged 9 "dog" <$>
      (load_segments_from_db no_faults (fresh [row7; row9] {[ 7 := "cat" ]})).1.
Proof.
  apply (listing_after_staging sample_repr no_faults _ _ 9 "dog"); reflexivity.
Defined.

(** ** Commits that drop, keep or repeat *)

(** X8.  A commit whose select raises still answers [{ok: true}]: it
    sends no update, leaves the table as it was, replaces the file by the
    header-only workbook and empties the staging dictionary, so every
    staged label is lost. *)
Theorem commit_after_failed_select uf w :
  api_commit (saving true uf) w
  = (Response 200 ok_true,
     {| db := db w;
        requests := requests w ++ [Select];
        pending_labels := ∅;
        xlsx := Some [header_sheet];
        stdout := stdout w ++ [LoadFailed StoreError] |}) ∧
  build_workbook [] = inr [header_sheet].
Proof.
  split; [|reflexivity].
  rewrite api_commit_eq. unfold after_updates, loaded_segments, loaded_rows.
  cbn [saving select_fails save_fails]. rewrite committed_nil. reflexivity.
Qed.

(** X9.  A label staged for an id that no row with a NULL label carries
    (the id does not exist, or its row got a label in the meantime) is
    dropped by the commit: no update is sent for that id, the rows with
    that id stay as they are, and once the commit has answered the entry
    is gone. *)
Theorem commit_drops_other_ids f w k :
  (∀ row, row ∈ db w → col_id row = k → col_label row ≠ None) →
  (∃ sent,
     requests (api_commit f w).2 = requests w ++ sent ∧
     ∀ l, Update (PInt k) l ∉ sent) ∧
  (∀ i row, db w !! i = Some row → col_id row = k →
            db (api_commit f w).2 !! i = Some row) ∧
  ((api_commit f w).1 = Response 200 ok_true →
   pending_labels (api_commit f w).2 !! k = None).
Proof.
  intros Hk.
  assert (k ∉ col_id <$> loaded_rows f w) as Hnot.
  { intros (row & -> & Hrow)%list_elem_of_fmap.
    apply loaded_rows_unlabeled in Hrow as [Hin Hl]. by apply (Hk row). }
  destruct (api_commit_after_updates f w) as (_ & Hreq & _).
  split; [|split].
  - rewrite Hreq. cbn [requests after_updates].
    eexists. split; [reflexivity|].
    intros l [H|H]%elem_of_cons; [discriminate|].
    apply list_elem_of_fmap in H as (u & Hu & Hin). injection Hu as Hu _.
    apply staged_updates_ids in Hin as (_ & row & Hrow & Hid).
    apply Hnot. apply list_elem_of_fmap. exists row. split; [congruence|done].
  - intros i row Hi Hid. rewrite api_commit_db, list_lookup_fmap, Hi. cbn.
    f_equal. apply committed_not_loaded. by rewrite Hid.
  - intros Hok.
    destruct (api_commit_pending_cases f w) as [(_ & -> & _)|(Hne & _)];
      [apply lookup_empty|by destruct Hne].
Qed.

Lemma commit_drops_other_ids_witness :
  db (api_commit no_faults (fresh [row8] {[ 8 := "cat" ]})).2 !! 0%nat = Some row8 ∧
  pending_labels (api_commit no_faults (fresh [row8] {[ 8 := "cat" ]})).2 !! 8 = None.
Proof.
  destruct (commit_drops_other_ids no_faults (fresh [row8] {[ 8 := "cat" ]}) 8)
    as (_ & Hdb & Hp).
  - intros row ->%list_elem_of_singleton _. discriminate.
  - split; [apply Hdb; reflexivity | apply Hp; reflexivity].
Defined.

(** X10.  A commit with nothing staged sends the select and no update,
    leaves the table as it was, prints nothing more than a failed
    select, and leaves the staging dictionary empty; when it answers,
    the file holds the rows with a NULL label, each with the empty
    label (none when the select failed). *)
Theorem commit_without_staging f w :
  pending_labels w = ∅ →
  db (api_commit f w).2 = db w ∧
  requests (api_commit f w).2 = requests w ++ [Select] ∧
  stdout (api_commit f w).2
  = stdout w ++ (if select_fails f then [LoadFailed StoreError] else []) ∧
  pending_labels (api_commit f w).2 = ∅ ∧
  ((api_commit f w).1 = Response 200 ok_true →
   xlsx (api_commit f w).2
   = Some [results_sheet
             (if select_fails f then [] else overlay ∅ <$> unlabeled (db w))]).
Proof.
  intros Hp.
  destruct (api_commit_after_updates f w) as (Hdb & Hreq & Hout).
  rewrite Hdb, Hreq, Hout. unfold after_updates. cbn [db requests stdout].
  rewrite Hp, staged_updates_empty, committed_empty.
  split; [reflexivity|]. split; [reflexivity|].
  split; [by destruct (select_fails f); cbn; rewrite ?app_nil_r|].
  destruct (api_commit_pending_cases f w) as [(Hok & Hq & Hx)|(Hne & Hq & _)].
  - split; [exact Hq|]. intros _. rewrite Hx.
    unfold loaded_segments, loaded_rows. rewrite Hp.
    by destruct (select_fails f).
  - split; [by rewrite Hq|]. intros Hok. by destruct Hne.
Qed.

Lemma commit_without_staging_witness :
  db (api_commit no_faults (fresh [row7; row8] ∅)).2 = [row7; row8] ∧
  requests (api_commit no_faults (fresh [row7; row8] ∅)).2 = [Select].
Proof.
  destruct (commit_without_staging no_faults (fresh [row7; row8] ∅) eq_refl)
    as (Hdb & Hreq & _).
  split; [exact Hdb | exact Hreq].
Defined.

(** X11.  Stage, then commit.  When a row with a NULL label carries the
    staged id and neither the select nor the update for that id fails,
    then after the commit every row with that id holds the staged label
    in the table, also when the export that follows raises; and once the
    commit has answered the staging dictionary is empty. *)
Theorem stage_then_commit_persists r f body w k label row0 :
  parsed_id body = inr k → parsed_label r body = inr label → 0 < k →
  row0 ∈ db w → col_id row0 = k → col_label row0 = None →
  select_fails f = false → update_fails f (PInt k) = false →
  (∀ row, row ∈ db (api_commit f (api_pending r body w).2).2 →
          col_id row = k → col_label row = Some label) ∧
  ((api_commit f (api_pending r body w).2).1 = Response 200 ok_true →
   pending_labels (api_commit f (api_pending r body w).2).2 = ∅).
Proof.
  intros Hk Hl Hpos Hin Hid Hnull Hsel Huf.
  rewrite (api_pending_valid r body w k label Hk Hl Hpos). cbn [snd].
  split.
  - intros row. rewrite api_commit_db.
    intros (old & -> & Hold)%list_elem_of_fmap Hrow.
    destruct (committed_label_after f
                (pending_labels (set_pending (<[k:=label]> (pending_labels w)) w))
                (loaded_rows f (set_pending (<[k:=label]> (pending_labels w)) w)) old)
      as [Hident ->].
    assert (col_id old = k) as Hold_id by (unfold identity in Hident; congruence).
    unfold label_after. cbn [pending_labels set_pending].
    rewrite Hold_id, lookup_insert_eq, Huf.
    rewrite bool_decide_eq_true_2; [reflexivity|].
    apply list_elem_of_fmap. exists row0. split; [done|].
    unfold loaded_rows, unlabeled. rewrite Hsel. cbn. apply list_elem_of_filter. done.
  - intros Hok.
    by destruct (api_commit_pending_cases f
                   (set_pending (<[k:=label]> (pending_labels w)) w))
      as [(_ & -> & _)|(Hne & _)].
Qed.

Lemma stage_then_commit_persists_witness :
  (∀ row, row ∈ db (api_commit no_faults
                     (api_pending sample_repr (stage_request (PInt 7) (PStr "cat"))
                        (fresh [row7; row8] ∅)).2).2 →
          col_id row = 7 → col_label row = Some "cat") ∧
  ((api_commit no_faults
      (api_pending sample_repr (stage_request (PInt 7) (PStr "cat"))
         (fresh [row7; row8] ∅)).2).1 = Response 200 ok_true →
   pending_labels
     (api_commit no_faults
        (api_pending sample_repr (stage_request (PInt 7) (PStr "cat"))
           (fresh [row7; row8] ∅)).2).2 = ∅).
Proof.
  apply (stage_then_commit_persists sample_repr no_faults _ _ 7 "cat" row7);
    try reflexivity. apply list_elem_of_here.
Defined.

(** X12.  What the listing shows after a commit that reached the store:
    the rows that had a NULL label and were not updated, in table order.
    When the commit has answered they all carry the empty label, so a
    row whose update failed is listed again without the label that was
    staged for it; when the export raised, the staging dictionary is
    still there and they carry their staged labels. *)
Theorem listing_after_commit uf sv uf' sv' w :
  (load_segments_from_db
     {| select_fails := false; update_fails := uf'; save_fails := sv' |}
     (api_commit {| select_fails := false; update_fails := uf; save_fails := sv |} w).2).1
  = overlay
      (pending_labels
         (api_commit {| select_fails := false; update_fails := uf; save_fails := sv |} w).2)
    <$> filter (λ row, updated uf (pending_labels w) row = false) (unlabeled (db w)) ∧
  ((api_commit {| select_fails := false; update_fails := uf; save_fails := sv |} w).1
   = Response 200 ok_true →
   pending_labels
     (api_commit {| select_fails := false; update_fails := uf; save_fails := sv |} w).2
   = ∅) ∧
  ((api_commit {| select_fails := false; update_fails := uf; save_fails := sv |} w).1
   ≠ Response 200 ok_true →
   pending_labels
     (api_commit {| select_fails := false; update_fails := uf; save_fails := sv |} w).2
   = pending_labels w).
Proof.
  split; [|split].
  - rewrite load_segments_unlabeled. cbn [select_fails].
    rewrite api_commit_db.
    rewrite (unlabeled_committed
               {| select_fails := false; update_fails := uf; save_fails := sv |});
      [reflexivity|].
    intros row Hin Hnull. apply list_elem_of_fmap. exists row. split; [done|].
    unfold loaded_rows, unlabeled. cbn. apply list_elem_of_filter. done.
  - intros Hok.
    by destruct (api_commit_pending_cases
                   {| select_fails := false; update_fails := uf; save_fails := sv |} w)
      as [(_ & -> & _)|(Hne & _)].
  - intros Hne.
    by destruct (api_commit_pending_cases
                   {| select_fails := false; update_fails := uf; save_fails := sv |} w)
      as [(Hok & _)|(_ & -> & _)].
Qed.

(** X14.  Committing again after a commit that reached the store but
    raised in its export.  The first commit kept the staging dictionary
    and its updates that went through are in the table, so the second
    commit loads only the rows still NULL: it re-sends exactly the
    updates that failed the first time, and the segments it exports no
    longer hold the rows the first commit updated. *)
Theorem commit_retry_after_failed_write uf1 sv1 uf2 sv2 w :
  (api_commit {| select_fails := false; update_fails := uf1; save_fails := sv1 |} w).1
  ≠ Response 200 ok_true →
  requests
    (api_commit {| select_fails := false; update_fails := uf2; save_fails := sv2 |}
       (api_commit {| select_fails := false; update_fails := uf1; save_fails := sv1 |} w).2).2
  = requests w
    ++ Select :: (update_request <$> staged_updates (pending_labels w) (unlabeled (db w)))
    ++ Select ::
       (update_request <$>
          staged_updates (pending_labels w)
            (filter (λ row, uf1 (PInt (col_id row)) = true) (unlabeled (db w)))) ∧
  loaded_segments {| select_fails := false; update_fails := uf2; save_fails := sv2 |}
    (api_commit {| select_fails := false; update_fails := uf1; save_fails := sv1 |} w).2
  = overlay (pending_labels w) <$>
      filter (λ row, updated uf1 (pending_labels w) row = false) (unlabeled (db w)).
Proof.
  intros Hne.
  set (f1 := {| select_fails := false; update_fails := uf1; save_fails := sv1 |}) in *.
  set (f2 := {| select_fails := false; update_fails := uf2; save_fails := sv2 |}).
  assert (unlabeled (db (api_commit f1 w).2)
          = filter (λ row, updated uf1 (pending_labels w) row = false) (unlabeled (db w)))
    as Hdb.
  { rewrite api_commit_db. apply (unlabeled_committed f1).
    intros row Hin Hnull. apply list_elem_of_fmap. exists row. split; [done|].
    unfold loaded_rows, unlabeled. cbn. apply list_elem_of_filter. done. }
  assert (pending_labels (api_commit f1 w).2 = pending_labels w) as Hp.
  { by destruct (api_commit_pending_cases f1 w) as [(Hok & _)|(_ & -> & _)]. }
  assert (requests (api_commit f1 w).2
          = requests w ++ Select ::
              (update_request <$> staged_updates (pending_labels w) (unlabeled (db w))))
    as Hreq.
  { by rewrite (proj1 (proj2 (api_commit_after_updates f1 w))). }
  split.
  - rewrite (proj1 (proj2 (api_commit_after_updates f2 _))).
    cbn [requests after_updates]. unfold loaded_rows. cbn [select_fails f2].
    rewrite Hdb, Hp, Hreq, staged_updates_failed, <- app_assoc. done.
  - unfold loaded_segments, loaded_rows. cbn [select_fails f2].
    by rewrite Hdb, Hp.
Qed.

Lemma commit_retry_after_failed_write_witness :
  requests
    (api_commit no_faults
       (api_commit (not_saving false fails_on_7)
          (fresh [row7; row9] {[ 7 := "cat"; 9 := "dog" ]})).2).2
  = [Select; Update (PInt 7) "cat"; Update (PInt 9) "dog"; Select; Update (PInt 7) "cat"].
Proof.
  destruct (commit_retry_after_failed_write fails_on_7 true (λ _, false) false
              (fresh [row7; row9] {[ 7 := "cat"; 9 := "dog" ]})) as [H _].
  - intros E. vm_compute in E. discriminate E.
  - exact H.
Defined.
